(** * auto_cover_art: a shallow embedding of [auto_cover_art.py]

    The script is a linear pipeline over external services: a probing
    subprocess, a fingerprinting subprocess, two HTTP endpoints and a tagging
    library.  The embedding keeps the Python control flow (try/except, early
    return from nested loops, truthiness tests) and threads an explicit state
    made of the file store and the trace of everything the run did. *)

From Stdlib Require Import ZArith Ascii String List.
From stdpp Require Import gmap strings list fin_maps.

#[local] Set Warnings "-register-all".

Open Scope string_scope.
Open Scope list_scope.
Open Scope Z_scope.

(** ** Values produced by [json.loads] *)

(** A Python float: finite ones as [mantissa * 2 ^ exponent]. *)
Inductive pyfloat :=
| FFinite (mantissa exponent : Z)
| FInf
| FNaN.

Inductive json :=
| JNull
| JBool (b : bool)
| JInt (z : Z)
| JFloat (f : pyfloat)
| JStr (s : string)
| JArr (items : list json)
| JObj (fields : list (string * json)).

(** ** Exceptions *)

Inductive exn :=
| CalledProcessError
| FileNotFoundError
| JSONDecodeError
| UnicodeDecodeError
| HTTPError (code : Z)
| AttributeError
| TypeError
| ValueError
| OverflowError
| IndexError
| KeyError
| MutagenError
| OtherException (name : string).

Inductive result (A : Type) :=
| Ok (a : A)
| Raise (e : exn).
Arguments Ok {A} a.
Arguments Raise {A} e.

(** ** Python built-ins on JSON values *)

Definition float_truthy (f : pyfloat) : bool :=
  match f with
  | FFinite m _ => negb (m =? 0)
  | FInf | FNaN => true
  end.

(** [bool(v)] *)
Definition truthy (v : json) : bool :=
  match v with
  | JNull => false
  | JBool b => b
  | JInt z => negb (z =? 0)
  | JFloat f => float_truthy f
  | JStr s => negb (String.eqb s "")
  | JArr items => match items with [] => false | _ => true end
  | JObj fields => match fields with [] => false | _ => true end
  end.

Fixpoint assoc (k : string) (fields : list (string * json)) : option json :=
  match fields with
  | [] => None
  | (k', v) :: rest => if String.eqb k k' then Some v else assoc k rest
  end.

(** [d.get(k, default)]: only a dict has the method. *)
Definition py_get (d : json) (k : string) (default : json) : result json :=
  match d with
  | JObj fields =>
      match assoc k fields with
      | Some v => Ok v
      | None => Ok default
      end
  | _ => Raise AttributeError
  end.

(** A string is held as its UTF-8 bytes, while a Python [str] is a sequence
    of code points: a code point starts at every byte that is not a
    continuation byte [10xxxxxx]. *)
Definition continuation (c : ascii) : bool :=
  (128 <=? nat_of_ascii c)%nat && (nat_of_ascii c <? 192)%nat.

(** The continuation bytes [s] starts with, and the code points after
    them. *)
Fixpoint split_points (s : string) : string * list string :=
  match s with
  | EmptyString => (EmptyString, [])
  | String c rest =>
      let '(tail, points) := split_points rest in
      if continuation c
      then (String c tail, points)
      else (EmptyString, String c tail :: points)
  end.

Definition code_points (s : string) : list string :=
  match split_points s with
  | (EmptyString, points) => points
  | (stray, points) => stray :: points
  end.

(** The one-character strings a [for c in s] loop visits. *)
Definition chars (s : string) : list json := map JStr (code_points s).

(** What a [for x in v] loop visits. *)
Definition py_iter (v : json) : result (list json) :=
  match v with
  | JArr items => Ok items
  | JStr s => Ok (chars s)
  | JObj fields => Ok (map (fun kv => JStr (fst kv)) fields)
  | _ => Raise TypeError
  end.

(** [len(v)] *)
Definition py_len (v : json) : result Z :=
  match v with
  | JArr items => Ok (Z.of_nat (length items))
  | JStr s => Ok (Z.of_nat (length (chars s)))
  | JObj fields => Ok (Z.of_nat (length fields))
  | _ => Raise TypeError
  end.

(** [v[0]] *)
Definition py_index0 (v : json) : result json :=
  match v with
  | JArr (x :: _) => Ok x
  | JArr [] => Raise IndexError
  | JStr s =>
      match chars s with
      | c :: _ => Ok c
      | [] => Raise IndexError
      end
  | JObj _ => Raise KeyError
  | _ => Raise TypeError
  end.

Definition float_trunc (f : pyfloat) : result Z :=
  match f with
  | FFinite m e =>
      if 0 <=? e then Ok (m * 2 ^ e) else Ok (Z.quot m (2 ^ (- e)))
  | FInf => Raise OverflowError
  | FNaN => Raise ValueError
  end.

(** [v == 'ok'] and the like: only a string equals a string. *)
Definition py_eq_str (v : json) (s : string) : bool :=
  match v with
  | JStr s' => String.eqb s' s
  | _ => false
  end.

(** ** The tagging library's objects *)

Abbreviation bytes := (list Byte.byte).

(** [MP4Cover(data, imageformat)] *)
Record MP4Cover := { cover_data : bytes; imageformat : Z }.

Definition FORMAT_JPEG : Z := 13.

Inductive mp4_value :=
| Covers (cs : list MP4Cover)
| Atom (raw : bytes).

(** [mutagen.flac.Picture] *)
Record Picture := {
  pic_type : Z;
  pic_mime : string;
  pic_desc : string;
  pic_data : bytes
}.

(** [Picture()] *)
Definition Picture0 : Picture :=
  {| pic_type := 0; pic_mime := ""; pic_desc := ""; pic_data := [] |}.

(** [mutagen.id3.APIC] *)
Record APIC := {
  apic_encoding : Z;
  apic_mime : string;
  apic_type : Z;
  apic_desc : string;
  apic_data : bytes
}.

(** An ID3 frame: an attached picture, or any other frame under its own
    hash key. *)
Inductive frame :=
| FrameAPIC (a : APIC)
| FrameOther (hash_key : string) (body : bytes).

Definition HashKey (f : frame) : string :=
  match f with
  | FrameAPIC a => "APIC:" +:+ apic_desc a
  | FrameOther k _ => k
  end.

(** A file of a format that is neither MPEG-4, FLAC nor ID3 (Ogg, APEv2,
    ASF, AAC, ...): its tag object, and the error its [add_tags()] raises
    whatever the tags are, for the formats whose [add_tags()] does nothing
    else (AAC holds no tags at all). *)
Record other_format := {
  other_tags : option (list (string * string));
  tagless : option exn
}.

(** What [mutagen.File] hands back for a recognised file. *)
Inductive container :=
| MP4 (tags : option (gmap string mp4_value))
| FLAC (comments : list (string * string)) (pictures : list Picture)
| ID3FileType (tags : option (gmap string frame))
| OtherFileType (format : other_format).

(** What lies behind a path: a file the tag reader chokes on, a file it
    does not recognise, or an audio container. *)
Inductive file :=
| Unreadable (e : exn)
| Unrecognised
| Audio (c : container).

(** Whether two files are the same can be told. *)
#[global] Instance byte_eq_dec : EqDecision Byte.byte := Byte.byte_eq_dec.

#[global] Instance exn_eq_dec : EqDecision exn.
Proof. solve_decision. Defined.

#[global] Instance MP4Cover_eq_dec : EqDecision MP4Cover.
Proof. solve_decision. Defined.

#[global] Instance mp4_value_eq_dec : EqDecision mp4_value.
Proof. solve_decision. Defined.

#[global] Instance Picture_eq_dec : EqDecision Picture.
Proof. solve_decision. Defined.

#[global] Instance APIC_eq_dec : EqDecision APIC.
Proof. solve_decision. Defined.

#[global] Instance frame_eq_dec : EqDecision frame.
Proof. solve_decision. Defined.

#[global] Instance other_format_eq_dec : EqDecision other_format.
Proof. solve_decision. Defined.

#[global] Instance container_eq_dec : EqDecision container.
Proof. solve_decision. Defined.

#[global] Instance file_eq_dec : EqDecision file.
Proof. solve_decision. Defined.

(** ** Trace of a run *)

Inductive level := INFO | WARNING | ERROR.

Inductive arg :=
| AStr (s : string)
| AInt (z : Z)
| AVal (v : json)
| AExn (e : exn).

(** A request handed to [urllib.request.urlopen], by the values its URL is
    built from. *)
Inductive request :=
| AcoustidLookup (client meta : string) (fingerprint : json) (duration : Z)
| CoverArtRelease (release_id : json)
| ImageUrl (url : string).

Inductive event :=
| Log (l : level) (template : string) (args : list arg)
| Run (cmd : list string)
| UrlOpen (r : request)
| MutagenFile (filepath : string)
| Save (filepath : string).

Record state := {
  fs : gmap string file;
  trace : list event
}.

Definition emit (e : event) (st : state) : state :=
  {| fs := fs st; trace := trace st ++ [e] |}.

Definition write (filepath : string) (f : file) (st : state) : state :=
  {| fs := <[filepath := f]> (fs st); trace := trace st |}.

(** ** The outside world *)

(** [subprocess.CompletedProcess] *)
Record CompletedProcess := { returncode : Z; stdout : string }.

Inductive save_outcome :=
| Saved
| SaveFailed (e : exn) (left_behind : file).

Record Env := {
  ACOUSTID_API_KEY : string;
  (** [subprocess.run(cmd, capture_output=True, text=True)] *)
  subprocess_run : state -> list string -> result CompletedProcess;
  (** [urlopen(url, timeout=30)] followed by [response.read()] *)
  urlopen_read : state -> request -> result bytes;
  (** [bytes.decode()] *)
  decode : bytes -> option string;
  (** [json.loads]: a parse error is [JSONDecodeError]; the parser also
      gives up with [RecursionError] on deep nesting and with [ValueError]
      on an integer of too many digits. *)
  json_loads : string -> result json;
  (** [int] on a string *)
  int_of_str : string -> option Z;
  (** [audio.save()] *)
  mutagen_save : state -> string -> container -> save_outcome
}.

(** ** State and exception monad *)

Definition M (A : Type) : Type := state -> result A * state.

Definition ret {A} (a : A) : M A := fun st => (Ok a, st).

Definition raise {A} (e : exn) : M A := fun st => (Raise e, st).

Definition bind {A B} (m : M A) (k : A -> M B) : M B :=
  fun st =>
    match m st with
    | (Ok a, st') => k a st'
    | (Raise e, st') => (Raise e, st')
    end.

(** [try: m  except Exception as e: h e] *)
Definition try_except {A} (m : M A) (h : exn -> M A) : M A :=
  fun st =>
    match m st with
    | (Ok a, st') => (Ok a, st')
    | (Raise e, st') => h e st'
    end.

Definition lift {A} (r : result A) : M A := fun st => (r, st).

Definition tell (e : event) : M unit := fun st => (Ok tt, emit e st).

Definition logger (l : level) (template : string) (args : list arg) : M unit :=
  tell (Log l template args).

Declare Scope py_scope.
Delimit Scope py_scope with py.
Notation "x <- m ;; k" := (bind m (fun x => k))
  (at level 100, m at next level, right associativity) : py_scope.
Notation "m ;;; k" := (bind m (fun _ => k))
  (at level 100, right associativity) : py_scope.
Open Scope py_scope.

(** Sequencing inside [result], for the parts of the script that only
    inspect parsed data. *)
Definition rbind {A B} (r : result A) (k : A -> result B) : result B :=
  match r with
  | Ok a => k a
  | Raise e => Raise e
  end.

Notation "x <~ r ;; k" := (rbind r (fun x => k))
  (at level 100, r at next level, right associativity) : py_scope.

(** What a loop body hands to its enclosing function: go on with the next
    item, or [return v]. *)
Inductive flow :=
| Next
| Return (v : bool).

(** ** Tag operations of the library *)

(** [ID3.delall(key)] *)
Definition delall (key : string) (tags : gmap string frame) : gmap string frame :=
  match tags !! key with
  | Some _ => delete key tags
  | None => filter (fun kf => String.prefix (key +:+ ":") (fst kf) = false) tags
  end.

Definition with_desc (a : APIC) (d : string) : APIC :=
  {| apic_encoding := apic_encoding a; apic_mime := apic_mime a;
     apic_type := apic_type a; apic_desc := d; apic_data := apic_data a |}.

(** [ID3.add(APIC(...))]: a free hash key takes the frame; a key held by
    another picture makes the new frame's description grow by a space until
    its key is free; a key held by any other frame is overwritten.  The
    fuel bounds the retries by the number of keys. *)
Fixpoint add_apic (fuel : nat) (a : APIC) (tags : gmap string frame)
  : gmap string frame :=
  match tags !! HashKey (FrameAPIC a) with
  | None => <[HashKey (FrameAPIC a) := FrameAPIC a]> tags
  | Some (FrameOther _ _) => <[HashKey (FrameAPIC a) := FrameAPIC a]> tags
  | Some (FrameAPIC _) =>
      match fuel with
      | O => tags
      | S n => add_apic n (with_desc a (apic_desc a +:+ " ")) tags
      end
  end.

Definition add (a : APIC) (tags : gmap string frame) : gmap string frame :=
  add_apic (S (size tags)) a tags.

(** [add_tags()]: refuses when a tag object is already there. *)
Definition add_tags {T} (empty : T) (tags : option T) : result T :=
  match tags with
  | None => Ok empty
  | Some _ => Raise MutagenError
  end.

(** [if not audio.tags: audio.add_tags()], then [audio.tags]: a tag object
    is falsy when it is [None] or holds nothing. *)
Definition ensure_tags {T} (is_empty : T -> bool) (empty : T) (tags : option T)
  : result T :=
  match tags with
  | Some t => if is_empty t then add_tags empty tags else Ok t
  | None => add_tags empty tags
  end.

(** The same test on a container of another format, whose [add_tags()]
    may be one that only raises. *)
Definition ensure_other_tags (f : other_format) : result (list (string * string)) :=
  match tagless f with
  | None =>
      ensure_tags (fun t => match t with [] => true | _ => false end) []
        (other_tags f)
  | Some e =>
      match other_tags f with
      | Some (x :: t) => Ok (x :: t)
      | _ => Raise e
      end
  end.

(** [FLAC.clear_pictures()] and [FLAC.add_picture(picture)] *)
Definition clear_pictures (pictures : list Picture) : list Picture := [].

Definition add_picture (picture : Picture) (pictures : list Picture)
  : list Picture := pictures ++ [picture].

(** Tags as the library loads them from a file: every frame sits under its
    own hash key, and only pictures carry the [APIC] frame id. *)
Definition frame_loaded (k : string) (f : frame) : Prop :=
  k = HashKey f /\
  match f with
  | FrameAPIC _ => True
  | FrameOther k' _ => String.prefix "APIC" k' = false
  end.

#[global] Instance frame_loaded_dec k f : Decision (frame_loaded k f).
Proof. unfold frame_loaded. destruct f; apply _. Defined.

Definition id3_loaded (tags : gmap string frame) : Prop :=
  map_Forall frame_loaded tags.

(** ** The script *)

Section Program.

Context (E : Env).

Definition ACOUSTID_API_URL : string := "https://api.acoustid.org/v2/lookup".
Definition COVERARTARCHIVE_URL : string := "https://coverartarchive.org/release".

(** [subprocess.run(cmd, capture_output=True, text=True, check=...)] *)
Definition run (cmd : list string) (check : bool) : M CompletedProcess :=
  tell (Run cmd) ;;;
  result <- (fun st => (subprocess_run E st cmd, st)) ;;
  if check && negb (returncode result =? 0)
  then raise CalledProcessError
  else ret result.

(** [json.loads(text)] *)
Definition loads (text : string) : result json := json_loads E text.

(** [json.loads(response.read().decode())] inside
    [with urllib.request.urlopen(url, timeout=30) as response] *)
Definition urlopen_json (r : request) : M json :=
  tell (UrlOpen r) ;;;
  body <- (fun st => (urlopen_read E st r, st)) ;;
  match decode E body with
  | None => raise UnicodeDecodeError
  | Some text => lift (loads text)
  end.

(** [int(v)] *)
Definition py_int (v : json) : result Z :=
  match v with
  | JInt z => Ok z
  | JBool b => Ok (if b then 1 else 0)
  | JFloat f => float_trunc f
  | JStr s =>
      match int_of_str E s with
      | Some z => Ok z
      | None => Raise ValueError
      end
  | JNull | JArr _ | JObj _ => Raise TypeError
  end.

(** *** run_fpcalc *)

Definition fpcalc_cmd (filepath : string) : list string :=
  ["fpcalc"; "-json"; "-length"; "120"; filepath].

(** [int(data.get('duration', 0))] *)
Definition duration_of (data : json) : result Z :=
  d <~ py_get data "duration" (JInt 0) ;;
  py_int d.

Definition run_fpcalc (filepath : string) : M (json * option Z) :=
  try_except
    (result <- run (fpcalc_cmd filepath) true ;;
     data <- lift (loads (stdout result)) ;;
     fingerprint <- lift (py_get data "fingerprint" JNull) ;;
     duration <- lift (duration_of data) ;;
     ret (fingerprint, Some duration))
    (fun e =>
       match e with
       | CalledProcessError =>
           logger ERROR "fpcalc failed: {e}" [AExn e] ;;;
           ret (JNull, None)
       | FileNotFoundError =>
           logger ERROR "fpcalc not found. Please install chromaprint." [] ;;;
           ret (JNull, None)
       | JSONDecodeError =>
           logger ERROR "Failed to parse fpcalc output: {e}" [AExn e] ;;;
           ret (JNull, None)
       | _ => raise e
       end).

(** *** lookup_acoustid *)

(** The lookup URL, by its query parameters.  The script builds it with
    [urlencode] before it enters the [try]; [urlencode] raises on a string
    that has no UTF-8 encoding (a lone surrogate).  Strings are held here
    as their UTF-8 bytes, so every string has one and the URL is always
    built. *)
Definition lookup_url (fingerprint : json) (duration : Z) : request :=
  AcoustidLookup (ACOUSTID_API_KEY E) "recordings releases" fingerprint duration.

(** [data.get('error', {}).get('message')] *)
Definition error_message (data : json) : result json :=
  err <~ py_get data "error" (JObj []) ;;
  py_get err "message" JNull.

Definition lookup_acoustid (fingerprint : json) (duration : Z) : M json :=
  let url := lookup_url fingerprint duration in
  try_except
    (data <- urlopen_json url ;;
     status <- lift (py_get data "status" JNull) ;;
     if py_eq_str status "ok"
     then lift (py_get data "results" (JArr []))
     else
       message <- lift (error_message data) ;;
       logger ERROR "AcoustID error: {message}" [AVal message] ;;;
       ret (JArr []))
    (fun e =>
       logger ERROR "Failed to query AcoustID: {e}" [AExn e] ;;;
       ret (JArr [])).

(** *** get_cover_art_url *)

(** [for img in images: if img.get('front'): return img.get('image')] *)
Fixpoint front_image (images : list json) : result (option json) :=
  match images with
  | [] => Ok None
  | img :: rest =>
      front <~ py_get img "front" JNull ;;
      if truthy front
      then (image <~ py_get img "image" JNull ;; Ok (Some image))
      else front_image rest
  end.

(** The body of the [with] block, once the response is parsed. *)
Definition select_image (data : json) : result json :=
  images <~ py_get data "images" (JArr []) ;;
  items <~ py_iter images ;;
  found <~ front_image items ;;
  match found with
  | Some image => Ok image
  | None =>
      if truthy images
      then (first <~ py_index0 images ;; py_get first "image" JNull)
      else Ok JNull
  end.

Definition get_cover_art_url (release_id : json) : M json :=
  try_except
    (data <- urlopen_json (CoverArtRelease release_id) ;;
     lift (select_image data))
    (fun e =>
       match e with
       | HTTPError code =>
           (if code =? 404
            then logger WARNING "No cover art found for release {release_id}"
                   [AVal release_id]
            else logger ERROR "HTTP error fetching cover art: {e}" [AExn e]) ;;;
           ret JNull
       | _ =>
           logger ERROR "Failed to fetch cover art URL: {e}" [AExn e] ;;;
           ret JNull
       end).

(** *** download_image *)

Definition download_image (url : json) : M (option bytes) :=
  try_except
    (match url with
     | JStr u =>
         tell (UrlOpen (ImageUrl u)) ;;;
         body <- (fun st => (urlopen_read E st (ImageUrl u), st)) ;;
         ret (Some body)
     | _ => raise AttributeError
     end)
    (fun e =>
       logger ERROR "Failed to download image: {e}" [AExn e] ;;;
       ret None).

(** *** embed_cover_art *)

(** [MutagenFile(filepath)]: [None] for a file no container matches. *)
Definition File (filepath : string) : M (option container) :=
  tell (MutagenFile filepath) ;;;
  fun st =>
    match fs st !! filepath with
    | None => (Raise MutagenError, st)
    | Some (Unreadable e) => (Raise e, st)
    | Some Unrecognised => (Ok None, st)
    | Some (Audio c) => (Ok (Some c), st)
    end.

(** [audio.save()]: the container is written back on success; on failure
    the library decides what is left behind. *)
Definition save (filepath : string) (audio : container) : M unit :=
  tell (Save filepath) ;;;
  fun st =>
    match mutagen_save E st filepath audio with
    | Saved => (Ok tt, write filepath (Audio audio) st)
    | SaveFailed e f => (Raise e, write filepath f st)
    end.

Definition jpeg_cover (image_data : bytes) : MP4Cover :=
  {| cover_data := image_data; imageformat := FORMAT_JPEG |}.

Definition jpeg_picture (image_data : bytes) : Picture :=
  {| pic_type := 3; pic_mime := "image/jpeg";
     pic_desc := pic_desc Picture0; pic_data := image_data |}.

Definition jpeg_apic (image_data : bytes) : APIC :=
  {| apic_encoding := 3; apic_mime := "image/jpeg"; apic_type := 3;
     apic_desc := "Cover"; apic_data := image_data |}.

(** The format dispatch, on the object in memory. *)
Definition set_cover (audio : container) (image_data : bytes) : result container :=
  match audio with
  | MP4 tags =>
      match tags with
      | None => Raise TypeError
      | Some t => Ok (MP4 (Some (<["covr" := Covers [jpeg_cover image_data]]> t)))
      end
  | FLAC comments pictures =>
      let picture := jpeg_picture image_data in
      Ok (FLAC comments (add_picture picture (clear_pictures pictures)))
  | ID3FileType tags =>
      t <~ ensure_tags (fun t => bool_decide (t = ∅)) ∅ tags ;;
      Ok (ID3FileType (Some (add (jpeg_apic image_data) (delall "APIC" t))))
  | OtherFileType format =>
      _ <~ ensure_other_tags format ;;
      Raise AttributeError
  end.

Definition embed_cover_art (filepath : string) (image_data : bytes) : M bool :=
  try_except
    (audio <- File filepath ;;
     match audio with
     | None =>
         logger ERROR "Unsupported file format" [] ;;;
         ret false
     | Some audio =>
         audio' <- lift (set_cover audio image_data) ;;
         save filepath audio' ;;;
         logger INFO "Successfully embedded cover art in {filepath}" [AStr filepath] ;;;
         ret true
     end)
    (fun e =>
       logger ERROR "Failed to embed cover art: {e}" [AExn e] ;;;
       ret false).

(** *** has_cover_art *)

(** [for stream in ...: if stream.get('disposition', {}).get('attached_pic'):
    return True] followed by [return False] *)
Fixpoint attached_pic (streams : list json) : result bool :=
  match streams with
  | [] => Ok false
  | stream :: rest =>
      disposition <~ py_get stream "disposition" (JObj []) ;;
      flag <~ py_get disposition "attached_pic" JNull ;;
      if truthy flag then Ok true else attached_pic rest
  end.

Definition ffprobe_cmd (filepath : string) : list string :=
  ["ffprobe"; "-v"; "quiet"; "-print_format"; "json";
   "-show_streams"; "-select_streams"; "v"; filepath].

Definition has_cover_art (filepath : string) : M bool :=
  try_except
    (result <- run (ffprobe_cmd filepath) false ;;
     data <- lift (loads (stdout result)) ;;
     lift (streams <~ py_get data "streams" (JArr []) ;;
           items <~ py_iter streams ;;
           attached_pic items))
    (fun e =>
       logger ERROR "Error checking cover art: {e}" [AExn e] ;;;
       ret false).

(** *** process_file *)

(** [bool(image_data)] for downloaded bytes, [None] included. *)
Definition data_truthy (image_data : option bytes) : bool :=
  match image_data with
  | Some (_ :: _) => true
  | _ => false
  end.

(** The body of [for release in releases]. *)
Definition try_release (filepath : string) (release : json) : M flow :=
  release_id <- lift (py_get release "id" JNull) ;;
  if negb (truthy release_id) then ret Next else
  title <- lift (py_get release "title" (JStr "Unknown")) ;;
  logger INFO "Trying release: {title} ({release_id})" [AVal title; AVal release_id] ;;;
  cover_url <- get_cover_art_url release_id ;;
  if negb (truthy cover_url) then ret Next else
  logger INFO "Found cover art URL: {cover_url}" [AVal cover_url] ;;;
  image_data <- download_image cover_url ;;
  if negb (data_truthy image_data) then ret Next else
  let image_data := match image_data with Some b => b | None => [] end in
  logger INFO "Downloaded cover art ({len(image_data)} bytes)"
    [AInt (Z.of_nat (length image_data))] ;;;
  embedded <- embed_cover_art filepath image_data ;;
  if embedded
  then logger INFO "Successfully added cover art!" [] ;;; ret (Return true)
  else ret Next.

(** A [for] loop whose body may return from the enclosing function. *)
Fixpoint for_each {A} (body : A -> M flow) (items : list A) : M flow :=
  match items with
  | [] => ret Next
  | x :: rest =>
      r <- body x ;;
      match r with
      | Return v => ret (Return v)
      | Next => for_each body rest
      end
  end.

(** The body of [for recording in recordings]. *)
Definition try_recording (filepath : string) (recording : json) : M flow :=
  releases <- lift (py_get recording "releases" (JArr [])) ;;
  if negb (truthy releases) then ret Next else
  items <- lift (py_iter releases) ;;
  for_each (try_release filepath) items.

(** The body of [for result in results]. *)
Definition try_result (filepath : string) (result : json) : M flow :=
  recordings <- lift (py_get result "recordings" (JArr [])) ;;
  if negb (truthy recordings) then ret Next else
  items <- lift (py_iter recordings) ;;
  for_each (try_recording filepath) items.

(** Lines 216 to 253: the scan over the candidates and the final
    [return False]. *)
Definition scan_results (filepath : string) (results : json) : M bool :=
  items <- lift (py_iter results) ;;
  r <- for_each (try_result filepath) items ;;
  match r with
  | Return v => ret v
  | Next =>
      logger WARNING "No cover art could be found or embedded" [] ;;;
      ret false
  end.

Definition fingerprint_failed (fingerprint : json) (duration : option Z) : bool :=
  negb (truthy fingerprint) ||
  match duration with
  | None => true
  | Some d => d =? 0
  end.

Definition process_file (filepath : string) : M bool :=
  logger INFO "Processing {filepath}..." [AStr filepath] ;;;
  covered <- has_cover_art filepath ;;
  if covered
  then logger INFO "File already has cover art. Skipping." [] ;;; ret true
  else
  logger INFO "No cover art found. Analyzing with AcoustID..." [] ;;;
  fp <- run_fpcalc filepath ;;
  let '(fingerprint, duration) := fp in
  if fingerprint_failed fingerprint duration
  then logger ERROR "Failed to generate fingerprint" [] ;;; ret false
  else
  let duration := match duration with Some d => d | None => 0 end in
  logger INFO "Fingerprint generated (duration: {duration}s)" [AInt duration] ;;;
  results <- lookup_acoustid fingerprint duration ;;
  if negb (truthy results)
  then logger ERROR "No AcoustID results found" [] ;;; ret false
  else
  n <- lift (py_len results) ;;
  logger INFO "Found {len(results)} AcoustID result(s)" [AInt n] ;;;
  scan_results filepath results.

End Program.

(** ** Vocabulary of the specification *)

(** Events that reach the network. *)
Definition network (e : event) : bool :=
  match e with
  | UrlOpen _ => true
  | _ => false
  end.

Definition is_error_log (e : event) : bool :=
  match e with
  | Log ERROR _ _ => true
  | _ => false
  end.

(** A save of [filepath] that fails in a state whose file store is
    [store], and leaves under the path something else than the store
    held. *)
Definition torn_save (E : Env) (filepath : string) (store : gmap string file)
  : Prop :=
  exists st audio e f,
    fs st = store /\
    mutagen_save E st filepath audio = SaveFailed e f /\
    store !! filepath <> Some f.

(** The first two progress lines of [process_file]. *)
Definition processing (filepath : string) : event :=
  Log INFO "Processing {filepath}..." [AStr filepath].

Definition analyzing : event :=
  Log INFO "No cover art found. Analyzing with AcoustID..." [].

(** The three failures of the fingerprinting step that [run_fpcalc]
    handles, by the exception the step ends with: a non-zero exit status, a
    missing executable, output on which the parser raises
    [JSONDecodeError].  [None] when the step does not fail in one of
    them. *)
Definition fpcalc_failure (E : Env) (filepath : string) (st : state)
  : option exn :=
  let cmd := fpcalc_cmd filepath in
  match subprocess_run E (emit (Run cmd) st) cmd with
  | Raise FileNotFoundError => Some FileNotFoundError
  | Raise _ => None
  | Ok cp =>
      if returncode cp =? 0
      then match json_loads E (stdout cp) with
           | Raise JSONDecodeError => Some JSONDecodeError
           | _ => None
           end
      else Some CalledProcessError
  end.

(** The line [run_fpcalc] logs for each of them. *)
Definition fpcalc_log (e : exn) : event :=
  match e with
  | FileNotFoundError =>
      Log ERROR "fpcalc not found. Please install chromaprint." []
  | JSONDecodeError => Log ERROR "Failed to parse fpcalc output: {e}" [AExn e]
  | _ => Log ERROR "fpcalc failed: {e}" [AExn e]
  end.

(** The fingerprinting step ran to the end and printed [data]. *)
Definition fpcalc_prints (E : Env) (filepath : string) (st : state)
    (data : json) : Prop :=
  let cmd := fpcalc_cmd filepath in
  exists cp,
    subprocess_run E (emit (Run cmd) st) cmd = Ok cp /\
    returncode cp = 0 /\
    json_loads E (stdout cp) = Ok data.

(** The status field of a lookup response is the success value. *)
Definition status_ok (data : json) : bool :=
  match data with
  | JObj fields =>
      match assoc "status" fields with
      | Some s => py_eq_str s "ok"
      | None => false
      end
  | _ => false
  end.

Definition fingerprinted (d : Z) : event :=
  Log INFO "Fingerprint generated (duration: {duration}s)" [AInt d].

(** A computation that leaves the file store as it found it. *)
Definition keeps_fs {A} (m : M A) : Prop :=
  forall st, fs (snd (m st)) = fs st.

(** A computation that leaves the file store as it found it unless the
    store it starts from is one that [escape] accepts, or it returns a
    value that [good] accepts. *)
Definition keeps_fs_unless {A} (escape : gmap string file -> Prop)
    (good : A -> Prop) (m : M A) : Prop :=
  forall st,
    fs (snd (m st)) = fs st \/ escape (fs st) \/
    exists a, fst (m st) = Ok a /\ good a.

(** *** Candidate releases as one flattened lazy sequence *)

(** The items of a lazy sequence, and the exception its producer raises
    after them, if any. *)
Definition lazy_seq : Type := list json * option exn.

Definition seq_app (a b : lazy_seq) : lazy_seq :=
  match a with
  | (xs, Some e) => (xs, Some e)
  | (xs, None) => (xs ++ fst b, snd b)
  end.

Fixpoint concat_map (f : json -> lazy_seq) (items : list json) : lazy_seq :=
  match items with
  | [] => ([], None)
  | x :: rest => seq_app (f x) (concat_map f rest)
  end.

(** The list under [key], empty when the key is missing or its value is
    falsy. *)
Definition children (key : string) (v : json) : result (list json) :=
  c <~ py_get v key (JArr []) ;;
  if truthy c then py_iter c else Ok [].

Definition of_result (r : result (list json)) : lazy_seq :=
  match r with
  | Ok xs => (xs, None)
  | Raise e => ([], Some e)
  end.

Definition releases_of_result (r : json) : lazy_seq :=
  match children "recordings" r with
  | Ok recordings =>
      concat_map (fun rec => of_result (children "releases" rec)) recordings
  | Raise e => ([], Some e)
  end.

(** result, then its recordings, then each recording's releases *)
Definition candidates (results : list json) : lazy_seq :=
  concat_map releases_of_result results.

(** Consume a lazy sequence until one item makes the body return. *)
Definition run_seq (body : json -> M flow) (s : lazy_seq) : M flow :=
  r <- for_each body (fst s) ;;
  match r, snd s with
  | Return v, _ => ret (Return v)
  | Next, None => ret Next
  | Next, Some e => raise e
  end.

(** The progress lines of the release loop. *)
Definition trying (fields : list (string * json)) (release_id : json) : event :=
  Log INFO "Trying release: {title} ({release_id})"
    [AVal (match assoc "title" fields with
           | Some title => title
           | None => JStr "Unknown"
           end);
     AVal release_id].

Definition found_url (cover_url : json) : event :=
  Log INFO "Found cover art URL: {cover_url}" [AVal cover_url].

Definition downloaded (image_data : bytes) : event :=
  Log INFO "Downloaded cover art ({len(image_data)} bytes)"
    [AInt (Z.of_nat (length image_data))].

Definition added : event := Log INFO "Successfully added cover art!" [].

Definition nothing_found : event :=
  Log WARNING "No cover art could be found or embedded" [].

(** *** The image the resolver is to select *)

Definition is_object (v : json) : bool :=
  match v with
  | JObj _ => true
  | _ => false
  end.

Definition field (k : string) (v : json) : option json :=
  match v with
  | JObj fields => assoc k fields
  | _ => None
  end.

Definition flagged_front (img : json) : bool :=
  match field "front" img with
  | Some f => truthy f
  | None => false
  end.

(** The [image] field, [None] when the object has none. *)
Definition image_url (img : json) : json :=
  match field "image" img with
  | Some u => u
  | None => JNull
  end.

(** Front if present, else the first image, else nothing. *)
Definition preferred_image (images : list json) : json :=
  match List.find flagged_front images with
  | Some img => image_url img
  | None =>
      match images with
      | first :: _ => image_url first
      | [] => JNull
      end
  end.

(** *** Pictures held by a container *)

Inductive embedded :=
| InMP4 (c : MP4Cover)
| InFLAC (p : Picture)
| InID3 (a : APIC).

Definition apic_of (f : frame) : option APIC :=
  match f with
  | FrameAPIC a => Some a
  | FrameOther _ _ => None
  end.

Definition pictures_of (c : container) : list embedded :=
  match c with
  | MP4 (Some t) =>
      match t !! "covr" with
      | Some (Covers cs) => map InMP4 cs
      | _ => []
      end
  | FLAC _ pictures => map InFLAC pictures
  | ID3FileType (Some t) => map InID3 (omap apic_of (map_to_list t).*2)
  | _ => []
  end.

Definition picture_bytes (p : embedded) : bytes :=
  match p with
  | InMP4 c => cover_data c
  | InFLAC p => pic_data p
  | InID3 a => apic_data a
  end.

(** The MIME type a reader reports: MP4 covers carry a format code. *)
Definition picture_mime (p : embedded) : string :=
  match p with
  | InMP4 c =>
      if imageformat c =? 13 then "image/jpeg"
      else if imageformat c =? 14 then "image/png"
      else ""
  | InFLAC p => pic_mime p
  | InID3 a => apic_mime a
  end.

(** The picture type, where the container records one (3 is front cover). *)
Definition picture_type (p : embedded) : option Z :=
  match p with
  | InMP4 _ => None
  | InFLAC p => Some (pic_type p)
  | InID3 a => Some (apic_type a)
  end.

Definition picture_desc (p : embedded) : option string :=
  match p with
  | InMP4 _ => None
  | InFLAC p => Some (pic_desc p)
  | InID3 a => Some (apic_desc a)
  end.

Definition loaded (c : container) : Prop :=
  match c with
  | ID3FileType (Some t) => id3_loaded t
  | _ => True
  end.

(** ** Vocabulary for the rest of the script *)

(** What a computation adds to the trace satisfies [P]. *)
Definition emits {A} (P : list event -> Prop) (m : M A) : Prop :=
  forall st, exists new,
    trace (snd (m st)) = trace st ++ new /\ P new.

(** A property of event lists that holds of nothing and survives
    concatenation. *)
Definition closed (P : list event -> Prop) : Prop :=
  P [] /\ forall l1 l2, P l1 -> P l2 -> P (l1 ++ l2).

Definition anything (l : list event) : Prop := True.

Definition is_log (e : event) : bool :=
  match e with
  | Log _ _ _ => true
  | _ => false
  end.

(** The ways the probing step ends in the handler of [has_cover_art]
    before any stream is looked at: the subprocess call raises, or the
    parser raises on its output. *)
Definition probe_failure (E : Env) (filepath : string) (st : state)
  : option exn :=
  let cmd := ffprobe_cmd filepath in
  match subprocess_run E (emit (Run cmd) st) cmd with
  | Raise e => Some e
  | Ok cp =>
      match json_loads E (stdout cp) with
      | Raise e => Some e
      | Ok _ => None
      end
  end.

(** The probing step ran and printed [data], whatever its exit status. *)
Definition probe_prints (E : Env) (filepath : string) (st : state)
    (data : json) : Prop :=
  let cmd := ffprobe_cmd filepath in
  exists cp,
    subprocess_run E (emit (Run cmd) st) cmd = Ok cp /\
    json_loads E (stdout cp) = Ok data.

(** [stream.get('disposition', {}).get('attached_pic')], as a truth
    value. *)
Definition stream_flag (stream : json) : result bool :=
  disposition <~ py_get stream "disposition" (JObj []) ;;
  flag <~ py_get disposition "attached_pic" JNull ;;
  Ok (truthy flag).

Definition check_failed (e : exn) : event :=
  Log ERROR "Error checking cover art: {e}" [AExn e].

Definition starts_with (e : event) (l : list event) : Prop :=
  exists rest, l = e :: rest.

(** [process_file] from the fingerprinting step on. *)
Definition from_fingerprint (E : Env) (filepath : string) : M bool :=
  fp <- run_fpcalc E filepath ;;
  let '(fingerprint, duration) := fp in
  if fingerprint_failed fingerprint duration
  then logger ERROR "Failed to generate fingerprint" [] ;;; ret false
  else
  let duration := match duration with Some d => d | None => 0 end in
  logger INFO "Fingerprint generated (duration: {duration}s)" [AInt duration] ;;;
  results <- lookup_acoustid E fingerprint duration ;;
  if negb (truthy results)
  then logger ERROR "No AcoustID results found" [] ;;; ret false
  else
  n <- lift (py_len results) ;;
  logger INFO "Found {len(results)} AcoustID result(s)" [AInt n] ;;;
  scan_results E filepath results.

(** [process_file] once the check has answered [False]. *)
Definition after_probe (E : Env) (filepath : string) : M bool :=
  logger INFO "No cover art found. Analyzing with AcoustID..." [] ;;;
  from_fingerprint E filepath.

(** The pair [run_fpcalc] builds from the fingerprinter's output. *)
Definition fingerprint_pair (E : Env) (data : json) : result (json * Z) :=
  fingerprint <~ py_get data "fingerprint" JNull ;;
  duration <~ duration_of E data ;;
  Ok (fingerprint, duration).

Definition logs_only (l : list event) : Prop :=
  Forall (fun e => is_log e = true) l.

(** The state reached from [st] by adding [new] to the trace and leaving
    the file store alone. *)
Definition state_after (st : state) (new : list event) : state :=
  {| fs := fs st; trace := trace st ++ new |}.

(** [data.get('results', [])] *)
Definition results_of (data : json) : json :=
  match field "results" data with
  | Some v => v
  | None => JArr []
  end.

Definition no_results : event := Log ERROR "No AcoustID results found" [].

Definition download_failed (e : exn) : event :=
  Log ERROR "Failed to download image: {e}" [AExn e].

Definition resolver_failed (e : exn) : event :=
  Log ERROR "Failed to fetch cover art URL: {e}" [AExn e].

(** The frames of a tag object that may be missing. *)
Definition frames_of (tags : option (gmap string frame)) : gmap string frame :=
  match tags with
  | Some t => t
  | None => ∅
  end.

(** Everything in [audio'] that is not a picture is what [audio] had. *)
Definition same_but_pictures (audio audio' : container) : Prop :=
  match audio, audio' with
  | MP4 (Some t), MP4 (Some t') =>
      forall k, k <> "covr" -> t' !! k = t !! k
  | FLAC comments _, FLAC comments' _ => comments' = comments
  | ID3FileType tags, ID3FileType (Some t') =>
      forall k k' body,
        t' !! k = Some (FrameOther k' body) <->
        frames_of tags !! k = Some (FrameOther k' body)
  | _, _ => False
  end.

(** The containers on which the format dispatch of [embed_cover_art] ends
    in an exception, with that exception: an MPEG-4 file without tags, an
    ID3 file whose tag object is there but empty, and every container that
    is neither MPEG-4, FLAC nor ID3.  Of the last, one with tags has no
    [delall]; one without is first asked to add them, which a format that
    holds no tags answers with its own error, and a format whose empty tag
    object is already there with the library's. *)
Definition refused (audio : container) : option exn :=
  match audio with
  | MP4 None => Some TypeError
  | MP4 (Some _) => None
  | FLAC _ _ => None
  | ID3FileType (Some t) => if bool_decide (t = ∅) then Some MutagenError else None
  | ID3FileType None => None
  | OtherFileType format =>
      match other_tags format, tagless format with
      | Some (_ :: _), _ => Some AttributeError
      | _, Some e => Some e
      | Some [], None => Some MutagenError
      | None, None => Some AttributeError
      end
  end.

Definition embed_failed (e : exn) : event :=
  Log ERROR "Failed to embed cover art: {e}" [AExn e].

(** A computation that writes no path but [filepath]. *)
Definition writes_only {A} (filepath : string) (m : M A) : Prop :=
  forall st q, q <> filepath -> fs (snd (m st)) !! q = fs st !! q.

(** *** Counting what a run asks of the outside world *)

Definition is_run (e : event) : bool :=
  match e with Run _ => true | _ => false end.

Definition is_lookup (e : event) : bool :=
  match e with UrlOpen (AcoustidLookup _ _ _ _) => true | _ => false end.

Definition is_cover_request (e : event) : bool :=
  match e with UrlOpen (CoverArtRelease _) => true | _ => false end.

Definition is_download (e : event) : bool :=
  match e with UrlOpen (ImageUrl _) => true | _ => false end.

Definition is_open (e : event) : bool :=
  match e with MutagenFile _ => true | _ => false end.

Definition is_save (e : event) : bool :=
  match e with Save _ => true | _ => false end.

Fixpoint calls (k : event -> bool) (l : list event) : nat :=
  match l with
  | [] => O
  | e :: rest => ((if k e then 1 else 0) + calls k rest)%nat
  end.

(** No more saves than opened files, no more opened files than downloads,
    no more downloads than art requests. *)
Definition in_order (l : list event) : Prop :=
  (calls is_save l <= calls is_open l)%nat /\
  (calls is_open l <= calls is_download l)%nat /\
  (calls is_download l <= calls is_cover_request l)%nat.

(** The events of a scan over at most [n] releases. *)
Definition tidy (n : nat) (l : list event) : Prop :=
  in_order l /\
  (calls is_cover_request l <= n)%nat /\
  calls is_lookup l = O /\
  calls is_run l = O.

(** Events that ask nothing of the outside world. *)
Definition asks_nothing (l : list event) : Prop :=
  calls is_run l = O /\ calls is_lookup l = O /\
  calls is_cover_request l = O /\ calls is_download l = O /\
  calls is_open l = O /\ calls is_save l = O.

(** [P] holds at every moment of a run: of every initial part of what the
    run did. *)
Definition always (P : list event -> Prop) (l : list event) : Prop :=
  forall before after, l = before ++ after -> P before.

(** What a run has asked of the outside world so far: at most two
    subprocess calls and one lookup; when the lookup has been made, both
    subprocess calls have; when an art request has been made, the lookup
    has; and the rest in order.  Held at every moment, the lookup comes
    only after both subprocess calls, art requests come only after the
    lookup, each download after its art request, each opening of the file
    after its download and each save after its opening. *)
Definition orderly (l : list event) : Prop :=
  (calls is_run l <= 2)%nat /\
  (calls is_lookup l <= 1)%nat /\
  (calls is_lookup l = 1%nat -> calls is_run l = 2%nat) /\
  ((0 < calls is_cover_request l)%nat -> calls is_lookup l = 1%nat) /\
  in_order l.

Definition found_results (n : Z) : event :=
  Log INFO "Found {len(results)} AcoustID result(s)" [AInt n].

(** ** The script's entry point *)

(** What the entry point asks of its host: the environment variable, the
    argument parser ([inl code] when it exits by itself, on a usage error or
    after printing help), [os.path.exists] and [os.path.abspath]. *)
Record Host := {
  getenv : option string;
  parse_args : list string -> Z + string;
  path_exists : state -> string -> bool;
  abspath : string -> string
}.

(** The world with the API key read at start-up. *)
Definition with_key (key : string) (E : Env) : Env :=
  {| ACOUSTID_API_KEY := key;
     subprocess_run := subprocess_run E;
     urlopen_read := urlopen_read E;
     decode := decode E;
     json_loads := json_loads E;
     int_of_str := int_of_str E;
     mutagen_save := mutagen_save E |}.

Definition key_missing : event :=
  Log ERROR
    "AcoustID API key not found. Please set the 'ACOUSTID_API_KEY' environment variable."
    [].

Definition file_not_found (file : string) : event :=
  Log ERROR "File not found: {args.file}" [AStr file].

(** The module run as a script, to its exit status: the key check of lines
    28 to 31, then the [__main__] block.  An exception nobody handles ends
    the interpreter with status 1. *)
Definition script (H : Host) (E : Env) (argv : list string) (st : state)
  : Z * state :=
  match getenv H with
  | None => (1, emit key_missing st)
  | Some key =>
      if String.eqb key "" then (1, emit key_missing st) else
      match parse_args H argv with
      | inl code => (code, st)
      | inr file =>
          if negb (path_exists H st file)
          then (1, emit (file_not_found file) st)
          else
            match process_file (with_key key E) (abspath H file) st with
            | (Ok success, st') => (if success then 0 else 1, st')
            | (Raise _, st') => (1, st')
            end
      end
  end.

(** The state [st'] is the one reached right after a successful embed
    into [filepath] of the bytes just downloaded: a release id resolved to
    [cover_url], the download of [cover_url] gave [image_data], which is
    not empty, and the embed of these very bytes, begun right after the
    line that reports the download, went through, so that the path holds
    what the format dispatch built from them. *)
Definition just_embedded (E : Env) (filepath : string) (st' : state) : Prop :=
  exists release_id cover_url image_data st2 st3 st5 st6 audio audio',
    truthy release_id = true /\
    get_cover_art_url E release_id st2 = (Ok cover_url, st3) /\
    download_image E cover_url (emit (found_url cover_url) st3) =
      (Ok (Some image_data), st5) /\
    image_data <> [] /\
    embed_cover_art E filepath image_data (emit (downloaded image_data) st5) =
      (Ok true, st6) /\
    fs st5 !! filepath = Some (Audio audio) /\
    set_cover audio image_data = Ok audio' /\
    fs st6 !! filepath = Some (Audio audio') /\
    st' = emit added st6.


(** ** A small concrete world *)

Module Demo.

(** A world whose answers do not depend on the state: fixed outcomes for
    the two subprocesses and for saving, a table of HTTP answers, a table
    standing for the JSON parser and a way of saving. *)
Definition world (probe fpcalc : result CompletedProcess)
    (http : request -> result bytes) (parse : list (string * json))
    (saving : state -> string -> save_outcome) : Env :=
  {| ACOUSTID_API_KEY := "key";
     subprocess_run := fun _ cmd =>
       if String.eqb (hd "" cmd) "ffprobe" then probe else fpcalc;
     urlopen_read := fun _ r => http r;
     decode := fun b => Some (string_of_list_byte b);
     json_loads := fun text =>
       match assoc text parse with
       | Some v => Ok v
       | None => Raise JSONDecodeError
       end;
     int_of_str := fun _ => None;
     mutagen_save := fun st filepath _ => saving st filepath |}.

(** Saving always works. *)
Definition saves (st : state) (filepath : string) : save_outcome := Saved.

(** Saving an existing file fails and leaves it as it was. *)
Definition refuses (st : state) (filepath : string) : save_outcome :=
  match fs st !! filepath with
  | Some f => SaveFailed (OtherException "PermissionError") f
  | None => Saved
  end.

Definition exited (code : Z) (out : string) : result CompletedProcess :=
  Ok {| returncode := code; stdout := out |}.

Definition body (text : string) : result bytes :=
  Ok (list_byte_of_string text).

Definition song : string := "/music/song.mp3".

Definition start (f : file) : state :=
  {| fs := {[ song := f ]}; trace := [] |}.

Definition with_picture : json :=
  JObj [("streams",
         JArr [JObj [("disposition", JObj [("attached_pic", JInt 1)])]])].

Definition no_picture : json := JObj [("streams", JArr [])].

Definition offline (r : request) : result bytes := Raise (OtherException "URLError").

Definition jpeg : bytes := list_byte_of_string "JFIF-new".

Definition old_art : bytes := list_byte_of_string "PNG-old".

Definition m4a : container :=
  MP4 (Some {[ "covr" := Covers [{| cover_data := old_art; imageformat := 14 |};
                                 {| cover_data := old_art; imageformat := 13 |}];
               "©nam" := Atom (list_byte_of_string "Title") ]}).

Definition flac : container :=
  FLAC [("TITLE", "Title")]
    [{| pic_type := 4; pic_mime := "image/png"; pic_desc := "back";
        pic_data := old_art |}].

Definition mp3 : container :=
  ID3FileType
    (Some {[ "APIC:" := FrameAPIC {| apic_encoding := 0; apic_mime := "image/png";
                                     apic_type := 3; apic_desc := "";
                                     apic_data := old_art |};
             "APIC:Cover" := FrameAPIC {| apic_encoding := 3;
                                          apic_mime := "image/png";
                                          apic_type := 4; apic_desc := "Cover";
                                          apic_data := old_art |};
             "TIT2" := FrameOther "TIT2" (list_byte_of_string "Title") ]}).

Definition quiet : Env :=
  world (exited 0 "probe") (exited 0 "fp") offline [] Demo.saves.

Definition first_release : json := JObj [("id", JStr "r1")].

Definition second_release : json :=
  JObj [("id", JStr "r2"); ("title", JStr "Album")].

(** One lookup result with one recording and two releases; only the
    second release has art. *)
Definition results : list json :=
  [JObj [("score", JFloat (FFinite 15 (-4)));
         ("recordings",
          JArr [JObj [("releases", JArr [first_release; second_release])]])]].

Definition matches : json :=
  JObj [("status", JStr "ok"); ("results", JArr results)].

Definition art : json :=
  JObj [("images",
         JArr [JObj [("front", JBool true);
                     ("image", JStr "https://art/front.jpg")]])].

Definition online (r : request) : result bytes :=
  match r with
  | AcoustidLookup _ _ _ _ => body "matches"
  | CoverArtRelease (JStr "r2") => body "art"
  | CoverArtRelease _ => Raise (HTTPError 404)
  | ImageUrl _ => Ok jpeg
  end.

Definition pages : list (string * json) :=
  [("probe", no_picture);
   ("fp", JObj [("fingerprint", JStr "AQADtMmY"); ("duration", JInt 215)]);
   ("matches", matches);
   ("art", art)].

(** A world in which the whole pipeline goes through. *)
Definition full : Env :=
  world (exited 0 "probe") (exited 0 "fp") online pages saves.

(** Both subprocesses exit normally and print a JSON list. *)
Definition listing : Env :=
  world (exited 0 "[]") (exited 0 "[]") offline [("[]", JArr [])] saves.

(** The fingerprinter prints the duration as a clock time. *)
Definition timed : Env :=
  world (exited 0 "probe") (exited 0 "fp") offline
    [("probe", no_picture);
     ("fp", JObj [("fingerprint", JStr "AQADtMmY"); ("duration", JStr "3:35")])]
    saves.

(** The fingerprinter prints JSON nested deeper than the parser follows. *)
Definition nested : Env :=
  {| ACOUSTID_API_KEY := ACOUSTID_API_KEY quiet;
     subprocess_run := subprocess_run quiet;
     urlopen_read := urlopen_read quiet;
     decode := decode quiet;
     json_loads := fun text =>
       if String.eqb text "probe" then Ok no_picture
       else Raise (OtherException "RecursionError");
     int_of_str := int_of_str quiet;
     mutagen_save := mutagen_save quiet |}.

(** The same world with a save that raises after the new tags have
    reached the file. *)
Definition torn : Env :=
  {| ACOUSTID_API_KEY := ACOUSTID_API_KEY full;
     subprocess_run := subprocess_run full;
     urlopen_read := urlopen_read full;
     decode := decode full;
     json_loads := json_loads full;
     int_of_str := int_of_str full;
     mutagen_save := fun _ _ audio =>
       SaveFailed (OtherException "OSError") (Audio audio) |}.

(** The same world with a read-only file. *)
Definition readonly : Env :=
  world (exited 0 "probe") (exited 0 "fp") online pages refuses.

Definition two_streams : json :=
  JObj [("streams",
         JArr [JObj [("codec_name", JStr "mjpeg");
                     ("disposition", JObj [("attached_pic", JInt 1)])];
               JStr "not a stream"])].

Definition bad_stream_first : json :=
  JObj [("streams",
         JArr [JStr "not a stream";
               JObj [("disposition", JObj [("attached_pic", JInt 1)])]])].

(** An art index whose only image carries a number where the URL belongs. *)
Definition art_without_url : json :=
  JObj [("images", JArr [JObj [("front", JBool true); ("image", JInt 42)]])].

(** An art index with an entry that is not an object ahead of the front
    image. *)
Definition art_with_stray_entry : json :=
  JObj [("images",
         JArr [JStr "https://art/back.jpg";
               JObj [("front", JBool true);
                     ("image", JStr "https://art/front.jpg")]])].

(** A Vorbis-comment file: neither MPEG-4, FLAC nor ID3. *)
Definition ogg : container :=
  OtherFileType {| other_tags := Some [("TITLE", "Title")]; tagless := None |}.

(** A raw AAC stream: the format holds no tags. *)
Definition aac : container :=
  OtherFileType {| other_tags := None;
                   tagless := Some (OtherException "AACError") |}.

(** One more file next to the song. *)
Definition shelf : state :=
  {| fs := {[ song := Audio mp3; "/music/other.flac" := Audio flac ]};
     trace := [] |}.

(** A lookup answer whose second result is not an object. *)
Definition results_with_junk : list json :=
  [JObj [("recordings", JArr [JObj [("releases", JArr [first_release])]])];
   JStr "junk"].

(** An art index that has art for every release. *)
Definition generous (r : request) : result bytes :=
  match r with
  | AcoustidLookup _ _ _ _ => body "matches"
  | CoverArtRelease _ => body "art"
  | ImageUrl _ => Ok jpeg
  end.

Definition lucky : Env :=
  world (exited 0 "probe") (exited 0 "fp") generous pages saves.

Definition host (key : option string) (present : bool) : Host :=
  {| getenv := key;
     parse_args := fun argv =>
       match argv with
       | [file] => if String.eqb file "--help" then inl 0 else inr file
       | _ => inl 2
       end;
     path_exists := fun _ _ => present;
     abspath := fun file => file |}.

End Demo.

(** * Properties *)

(** ** Running the monad *)

Ltac unfold_m :=
  unfold bind, try_except, ret, raise, lift, tell, logger, rbind in *.

Ltac trace_eq :=
  unfold emit, write; simpl; rewrite <- ?app_assoc; simpl;
  rewrite ?app_nil_r; try reflexivity.

(** ** has_cover_art *)

(** The check always answers, spawns the probe and nothing else, and logs
    only when it answers [False]. *)
Lemma has_cover_art_total E filepath st :
  exists b logs,
    has_cover_art E filepath st =
      (Ok b, {| fs := fs st;
                trace := trace st ++ Run (ffprobe_cmd filepath) :: logs |}) /\
    (b = true -> logs = []) /\
    Forall (fun e => is_error_log e = true) logs.
Proof.
  assert (Hfail : forall e,
    exists b logs,
      (Ok false,
       emit (Log ERROR "Error checking cover art: {e}" [AExn e])
         (emit (Run (ffprobe_cmd filepath)) st)) =
      (Ok b, {| fs := fs st;
                trace := trace st ++ Run (ffprobe_cmd filepath) :: logs |}) /\
      (b = true -> logs = []) /\
      Forall (fun e => is_error_log e = true) logs).
  { intros e. eexists false, [_]. split; [trace_eq|].
    split; [done|]. by repeat constructor. }
  unfold has_cover_art, run, loads. unfold_m. simpl.
  destruct (subprocess_run E _ _) as [cp|e]; simpl; [|apply Hfail].
  destruct (json_loads E (stdout cp)) as [data|e]; simpl; [|apply Hfail].
  destruct (py_get data "streams" (JArr [])) as [streams|e]; simpl; [|apply Hfail].
  destruct (py_iter streams) as [items|e]; simpl; [|apply Hfail].
  destruct (attached_pic items) as [b|e]; simpl; [|apply Hfail].
  exists b, []. split; [trace_eq|]. split; [done|constructor].
Qed.

(** ** process_file on a file that already has a cover *)

(** C2: when the cover-presence check reports an attached picture,
    [process_file] returns [True]; the whole run consists of the opening
    log line, the probe and the skip message, and the file store is as it
    was: no fingerprint, no lookup, no download, no embedding. *)
Theorem process_file_skips_covered E filepath st :
  fst (has_cover_art E filepath
         (emit (Log INFO "Processing {filepath}..." [AStr filepath]) st))
    = Ok true ->
  process_file E filepath st =
    (Ok true,
     {| fs := fs st;
        trace := trace st ++
          [Log INFO "Processing {filepath}..." [AStr filepath];
           Run (ffprobe_cmd filepath);
           Log INFO "File already has cover art. Skipping." []] |}).
Proof.
  intros Hcov. unfold process_file. unfold_m. simpl.
  destruct (has_cover_art_total E filepath
              (emit (Log INFO "Processing {filepath}..." [AStr filepath]) st))
    as (b & logs & Heq & Hlogs & _).
  rewrite Heq in Hcov |- *. simpl in Hcov. injection Hcov as ->.
  rewrite (Hlogs eq_refl). simpl. f_equal. trace_eq.
Qed.

Lemma process_file_skips_covered_witness :
  process_file
    (Demo.world (Demo.exited 0 "probe") (Raise FileNotFoundError) Demo.offline
       [("probe", Demo.with_picture)] Demo.saves)
    Demo.song (Demo.start Unrecognised) =
  (Ok true,
   {| fs := {[ Demo.song := Unrecognised ]};
      trace :=
        [Log INFO "Processing {filepath}..." [AStr Demo.song];
         Run (ffprobe_cmd Demo.song);
         Log INFO "File already has cover art. Skipping." []] |}).
Proof.
  apply (process_file_skips_covered
           (Demo.world (Demo.exited 0 "probe") (Raise FileNotFoundError)
              Demo.offline [("probe", Demo.with_picture)] Demo.saves)
           Demo.song (Demo.start Unrecognised)).
  vm_compute. reflexivity.
Defined.

(** ** The fingerprinting step *)

Lemma run_fpcalc_failure E filepath st e :
  fpcalc_failure E filepath st = Some e ->
  run_fpcalc E filepath st =
    (Ok (JNull, None),
     emit (fpcalc_log e) (emit (Run (fpcalc_cmd filepath)) st)).
Proof.
  unfold fpcalc_failure, run_fpcalc, run, loads. unfold_m. simpl.
  destruct (subprocess_run E _ _) as [cp|e0]; simpl.
  - destruct (returncode cp =? 0); simpl.
    + destruct (json_loads E (stdout cp)) as [data|e0]; [done|].
      destruct e0; try done. by intros [= <-].
    + by intros [= <-].
  - destruct e0; try done. by intros [= <-].
Qed.

Lemma run_fpcalc_prints E filepath st data fingerprint duration :
  fpcalc_prints E filepath st data ->
  py_get data "fingerprint" JNull = Ok fingerprint ->
  duration_of E data = Ok duration ->
  run_fpcalc E filepath st =
    (Ok (fingerprint, Some duration), emit (Run (fpcalc_cmd filepath)) st).
Proof.
  intros (cp & Hrun & Hcode & Hjson) Hfp Hd.
  unfold run_fpcalc, run, loads. unfold_m. simpl.
  rewrite Hrun, Hcode. simpl. rewrite Hjson. simpl. by rewrite Hfp, Hd.
Qed.

(** [process_file] from the check to the fingerprint test. *)
Lemma process_file_no_fingerprint E filepath st st1 fingerprint duration st2 :
  has_cover_art E filepath (emit (processing filepath) st) = (Ok false, st1) ->
  run_fpcalc E filepath (emit analyzing st1) = (Ok (fingerprint, duration), st2) ->
  fingerprint_failed fingerprint duration = true ->
  process_file E filepath st =
    (Ok false, emit (Log ERROR "Failed to generate fingerprint" []) st2).
Proof.
  intros Hcov Hfp Hfail. unfold process_file, processing, analyzing in *.
  unfold_m. simpl. rewrite Hcov. simpl. rewrite Hfp. simpl. by rewrite Hfail.
Qed.

Lemma has_cover_art_false_trace E filepath st st1 :
  has_cover_art E filepath st = (Ok false, st1) ->
  exists logs,
    st1 = {| fs := fs st;
             trace := trace st ++ Run (ffprobe_cmd filepath) :: logs |} /\
    Forall (fun e => is_error_log e = true) logs.
Proof.
  intros H. destruct (has_cover_art_total E filepath st) as (b & logs & Heq & _ & Hl).
  rewrite Heq in H. injection H as _ <-. eauto.
Qed.

Lemma error_logs_offline logs :
  Forall (fun e => is_error_log e = true) logs ->
  Forall (fun e => network e = false) logs.
Proof.
  intros H. eapply Forall_impl; [exact H|].
  intros [[]| | | |]; simpl; congruence.
Qed.

Lemma fingerprint_stop_trace E filepath st st1 st2 mid :
  has_cover_art E filepath (emit (processing filepath) st) = (Ok false, st1) ->
  st2 = {| fs := fs st1; trace := trace (emit analyzing st1) ++ mid |} ->
  Forall (fun ev => network ev = false) mid ->
  exists new,
    emit (Log ERROR "Failed to generate fingerprint" []) st2 =
      {| fs := fs st;
         trace := trace st ++ new ++
                    [Log ERROR "Failed to generate fingerprint" []] |} /\
    Forall (fun ev => network ev = false) new.
Proof.
  intros Hcov -> Hmid.
  apply has_cover_art_false_trace in Hcov as (logs & -> & Hlogs).
  exists ([processing filepath; Run (ffprobe_cmd filepath)] ++ logs
          ++ [analyzing] ++ mid).
  split.
  - unfold emit. simpl. f_equal. by rewrite <- !app_assoc.
  - repeat first [apply Forall_app; split | apply Forall_cons; split
                 | apply Forall_nil]; try done.
    by apply error_logs_offline.
Qed.

(** X22: the failures [run_fpcalc] handles.  When the fingerprinter exits
    with a non-zero status, is not installed, or prints text on which the
    parser raises [JSONDecodeError], [run_fpcalc] returns the failure value
    [(None, None)] after logging the line of that failure, and
    [process_file], having found no cover, returns [False] with no network
    request in what the run did and the file store as it was. *)
Theorem fingerprint_failure_stops_offline E filepath :
  (forall st e,
     fpcalc_failure E filepath st = Some e ->
     run_fpcalc E filepath st =
       (Ok (JNull, None),
        emit (fpcalc_log e) (emit (Run (fpcalc_cmd filepath)) st))) /\
  (forall st st1 e,
     has_cover_art E filepath (emit (processing filepath) st) = (Ok false, st1) ->
     fpcalc_failure E filepath (emit analyzing st1) = Some e ->
     exists new,
       process_file E filepath st =
         (Ok false,
          {| fs := fs st;
             trace := trace st ++ new ++
                        [Log ERROR "Failed to generate fingerprint" []] |}) /\
       Forall (fun ev => network ev = false) new).
Proof.
  split; [intros; by apply run_fpcalc_failure|].
  intros st st1 e Hcov Hfail.
  pose proof (run_fpcalc_failure _ _ _ _ Hfail) as Hrun.
  rewrite (process_file_no_fingerprint _ _ _ _ _ _ _ Hcov Hrun eq_refl).
  destruct (fingerprint_stop_trace E filepath st st1
              (emit (fpcalc_log e) (emit (Run (fpcalc_cmd filepath)) (emit analyzing st1)))
              [Run (fpcalc_cmd filepath); fpcalc_log e] Hcov)
    as (new & Heq & Hnew).
  - trace_eq.
  - repeat constructor. by destruct e.
  - exists new. by rewrite Heq.
Qed.

Lemma fingerprint_failure_stops_offline_witness :
  let E := Demo.world (Demo.exited 0 "probe") (Raise FileNotFoundError)
             Demo.offline [("probe", Demo.no_picture)] Demo.saves in
  run_fpcalc E Demo.song (Demo.start Unrecognised) =
    (Ok (JNull, None),
     emit (fpcalc_log FileNotFoundError)
       (emit (Run (fpcalc_cmd Demo.song)) (Demo.start Unrecognised))) /\
  exists new,
    process_file E Demo.song (Demo.start Unrecognised) =
      (Ok false,
       {| fs := fs (Demo.start Unrecognised);
          trace := trace (Demo.start Unrecognised) ++ new ++
                     [Log ERROR "Failed to generate fingerprint" []] |}) /\
    Forall (fun ev => network ev = false) new.
Proof.
  intros E.
  destruct (fingerprint_failure_stops_offline E Demo.song) as [Hrun Hproc].
  split.
  - apply (Hrun (Demo.start Unrecognised) FileNotFoundError). reflexivity.
  - apply (Hproc (Demo.start Unrecognised)
             (emit (Run (ffprobe_cmd Demo.song))
                (emit (processing Demo.song) (Demo.start Unrecognised)))
             FileNotFoundError); reflexivity.
Defined.

(** C3: the output [run_fpcalc] does not handle.  The fingerprinter exits
    with status 0 and prints [[]]: JSON, but not the object the script
    reads.  On the same output of the probe the cover check, which catches
    every exception, logs and answers [False]; [run_fpcalc] raises
    [AttributeError] where it is to return the failure value, and
    [process_file] ends with that exception where it is to report failure.
    The same happens on a duration that is no number, and on output the
    parser gives up on with an exception other than [JSONDecodeError].  In
    none of these runs is a request made. *)
Theorem malformed_fingerprint_escapes :
  has_cover_art Demo.listing Demo.song (Demo.start Unrecognised) =
    (Ok false,
     state_after (Demo.start Unrecognised)
       [Run (ffprobe_cmd Demo.song); check_failed AttributeError]) /\
  run_fpcalc Demo.listing Demo.song (Demo.start Unrecognised) =
    (Raise AttributeError,
     state_after (Demo.start Unrecognised) [Run (fpcalc_cmd Demo.song)]) /\
  process_file Demo.listing Demo.song (Demo.start Unrecognised) =
    (Raise AttributeError,
     state_after (Demo.start Unrecognised)
       [processing Demo.song; Run (ffprobe_cmd Demo.song);
        check_failed AttributeError; analyzing; Run (fpcalc_cmd Demo.song)]) /\
  process_file Demo.timed Demo.song (Demo.start Unrecognised) =
    (Raise ValueError,
     state_after (Demo.start Unrecognised)
       [processing Demo.song; Run (ffprobe_cmd Demo.song); analyzing;
        Run (fpcalc_cmd Demo.song)]) /\
  process_file Demo.nested Demo.song (Demo.start Unrecognised) =
    (Raise (OtherException "RecursionError"),
     state_after (Demo.start Unrecognised)
       [processing Demo.song; Run (ffprobe_cmd Demo.song); analyzing;
        Run (fpcalc_cmd Demo.song)]).
Proof. repeat split. Qed.

(** C9: a duration that is missing from the fingerprinter's output parses
    as zero, and whenever the parsed duration is zero [process_file],
    having found no cover, takes the fingerprint for failed and returns
    [False] without any network request, whatever the fingerprint string
    is: [(fingerprint, 0)] fails the same test as [(None, None)]. *)
Theorem zero_duration_is_failure E filepath :
  (forall fields,
     assoc "duration" fields = None -> duration_of E (JObj fields) = Ok 0) /\
  (forall st st1 data fingerprint,
     has_cover_art E filepath (emit (processing filepath) st) = (Ok false, st1) ->
     fpcalc_prints E filepath (emit analyzing st1) data ->
     py_get data "fingerprint" JNull = Ok fingerprint ->
     duration_of E data = Ok 0 ->
     run_fpcalc E filepath (emit analyzing st1) =
       (Ok (fingerprint, Some 0),
        emit (Run (fpcalc_cmd filepath)) (emit analyzing st1)) /\
     fingerprint_failed fingerprint (Some 0) = fingerprint_failed JNull None /\
     exists new,
       process_file E filepath st =
         (Ok false,
          {| fs := fs st;
             trace := trace st ++ new ++
                        [Log ERROR "Failed to generate fingerprint" []] |}) /\
       Forall (fun ev => network ev = false) new).
Proof.
  split.
  - intros fields Hnone. unfold duration_of. simpl. by rewrite Hnone.
  - intros st st1 data fingerprint Hcov Hprints Hfp Hd.
    pose proof (run_fpcalc_prints _ _ _ _ _ _ Hprints Hfp Hd) as Hrun.
    assert (Hfail : fingerprint_failed fingerprint (Some 0) = true).
    { unfold fingerprint_failed. simpl. apply orb_true_r. }
    split; [done|]. split; [done|].
    rewrite (process_file_no_fingerprint _ _ _ _ _ _ _ Hcov Hrun Hfail).
    destruct (fingerprint_stop_trace E filepath st st1
                (emit (Run (fpcalc_cmd filepath)) (emit analyzing st1))
                [Run (fpcalc_cmd filepath)] Hcov)
      as (new & Heq & Hnew).
    + trace_eq.
    + by repeat constructor.
    + exists new. by rewrite Heq.
Qed.

Lemma zero_duration_is_failure_witness :
  let E := Demo.world (Demo.exited 0 "probe") (Demo.exited 0 "fp")
             Demo.offline
             [("probe", Demo.no_picture);
              ("fp", JObj [("fingerprint", JStr "AQADtMmY");
                           ("duration", JFloat (FFinite 1 (-1)))])] Demo.saves in
  duration_of E (JObj [("fingerprint", JStr "AQADtMmY")]) = Ok 0 /\
  fst (process_file E Demo.song (Demo.start Unrecognised)) = Ok false.
Proof.
  intros E.
  destruct (zero_duration_is_failure E Demo.song) as [Hmissing Hzero].
  split.
  - apply Hmissing. reflexivity.
  - destruct (Hzero (Demo.start Unrecognised)
                (emit (Run (ffprobe_cmd Demo.song))
                   (emit (processing Demo.song) (Demo.start Unrecognised)))
                (JObj [("fingerprint", JStr "AQADtMmY");
                       ("duration", JFloat (FFinite 1 (-1)))])
                (JStr "AQADtMmY"))
      as (_ & _ & new & Heq & _).
    + reflexivity.
    + eexists. split; [reflexivity|]. split; reflexivity.
    + reflexivity.
    + reflexivity.
    + rewrite Heq. reflexivity.
Defined.

(** ** The fingerprint lookup *)

Lemma lookup_acoustid_not_ok E fingerprint duration st data st1 :
  urlopen_json E (lookup_url E fingerprint duration) st = (Ok data, st1) ->
  status_ok data = false ->
  exists line,
    lookup_acoustid E fingerprint duration st = (Ok (JArr []), emit line st1) /\
    is_error_log line = true /\
    forall message,
      error_message data = Ok message ->
      line = Log ERROR "AcoustID error: {message}" [AVal message].
Proof.
  intros Hresp Hstatus. unfold lookup_acoustid. unfold_m. rewrite Hresp.
  destruct data as [| | | | | |fields]; simpl;
    try (eexists; split; [reflexivity|]; split; [reflexivity|];
         intros message; unfold error_message; simpl; discriminate).
  unfold status_ok in Hstatus.
  destruct (assoc "status" fields) as [s|]; simpl; rewrite ?Hstatus;
    (destruct (error_message (JObj fields)) as [m|e] eqn:Hm; simpl;
     eexists; (split; [reflexivity|]); (split; [reflexivity|]);
     intros message; congruence).
Qed.

(** [process_file] from the check to the test on the lookup's answer. *)
Lemma process_file_no_results E filepath st st1 fingerprint duration st2
    results st3 :
  has_cover_art E filepath (emit (processing filepath) st) = (Ok false, st1) ->
  run_fpcalc E filepath (emit analyzing st1) =
    (Ok (fingerprint, Some duration), st2) ->
  fingerprint_failed fingerprint (Some duration) = false ->
  lookup_acoustid E fingerprint duration (emit (fingerprinted duration) st2) =
    (Ok results, st3) ->
  truthy results = false ->
  process_file E filepath st =
    (Ok false, emit (Log ERROR "No AcoustID results found" []) st3).
Proof.
  intros Hcov Hfp Hfail Hlookup Hempty.
  unfold process_file, processing, analyzing, fingerprinted in *.
  unfold_m. simpl. rewrite Hcov. simpl. rewrite Hfp. simpl. rewrite Hfail.
  rewrite Hlookup. by rewrite Hempty.
Qed.

(** C4: when the lookup response's status field is not ["ok"],
    [lookup_acoustid] returns the empty list after logging one error line,
    which carries the message found under [error.message] of the response
    whenever that lookup yields one, and [process_file], once it has a
    fingerprint, returns [False]. *)
Theorem lookup_error_status_fails E :
  (forall fingerprint duration st data st1,
     urlopen_json E (lookup_url E fingerprint duration) st = (Ok data, st1) ->
     status_ok data = false ->
     exists line,
       lookup_acoustid E fingerprint duration st =
         (Ok (JArr []), emit line st1) /\
       is_error_log line = true /\
       forall message,
         error_message data = Ok message ->
         line = Log ERROR "AcoustID error: {message}" [AVal message]) /\
  (forall filepath st st1 fingerprint duration st2 data st3,
     has_cover_art E filepath (emit (processing filepath) st) = (Ok false, st1) ->
     run_fpcalc E filepath (emit analyzing st1) =
       (Ok (fingerprint, Some duration), st2) ->
     fingerprint_failed fingerprint (Some duration) = false ->
     urlopen_json E (lookup_url E fingerprint duration)
       (emit (fingerprinted duration) st2) = (Ok data, st3) ->
     status_ok data = false ->
     exists line,
       process_file E filepath st =
         (Ok false,
          emit (Log ERROR "No AcoustID results found" []) (emit line st3)) /\
       is_error_log line = true /\
       forall message,
         error_message data = Ok message ->
         line = Log ERROR "AcoustID error: {message}" [AVal message]).
Proof.
  split; [intros; by eapply lookup_acoustid_not_ok|].
  intros filepath st st1 fingerprint duration st2 data st3
    Hcov Hfp Hfail Hresp Hstatus.
  destruct (lookup_acoustid_not_ok _ _ _ _ _ _ Hresp Hstatus)
    as (line & Hlookup & Herr & Hmsg).
  exists line. split; [|done].
  by apply (process_file_no_results _ _ _ _ _ _ _ _ _ Hcov Hfp Hfail Hlookup).
Qed.

Lemma lookup_error_status_fails_witness :
  let reply := JObj [("status", JStr "error");
                     ("error", JObj [("code", JInt 4);
                                     ("message", JStr "invalid API key")])] in
  let E := Demo.world (Demo.exited 0 "probe") (Demo.exited 0 "fp")
             (fun _ => Demo.body "reply")
             [("probe", Demo.no_picture);
              ("fp", JObj [("fingerprint", JStr "AQADtMmY");
                           ("duration", JInt 215)]);
              ("reply", reply)] Demo.saves in
  lookup_acoustid E (JStr "AQADtMmY") 215 (Demo.start Unrecognised) =
    (Ok (JArr []),
     emit (Log ERROR "AcoustID error: {message}" [AVal (JStr "invalid API key")])
       (emit (UrlOpen (lookup_url E (JStr "AQADtMmY") 215))
          (Demo.start Unrecognised))) /\
  fst (process_file E Demo.song (Demo.start Unrecognised)) = Ok false.
Proof.
  intros reply E.
  destruct (lookup_error_status_fails E) as [Hlookup Hproc].
  split.
  - destruct (Hlookup (JStr "AQADtMmY") 215 (Demo.start Unrecognised) reply
                (emit (UrlOpen (lookup_url E (JStr "AQADtMmY") 215))
                   (Demo.start Unrecognised)))
      as (line & Heq & _ & Hmsg); [reflexivity|reflexivity|].
    rewrite Heq. rewrite (Hmsg (JStr "invalid API key") eq_refl). reflexivity.
  - destruct (Hproc Demo.song (Demo.start Unrecognised)
                (emit (Run (ffprobe_cmd Demo.song))
                   (emit (processing Demo.song) (Demo.start Unrecognised)))
                (JStr "AQADtMmY") 215
                (emit (Run (fpcalc_cmd Demo.song))
                   (emit analyzing
                      (emit (Run (ffprobe_cmd Demo.song))
                         (emit (processing Demo.song)
                            (Demo.start Unrecognised)))))
                reply
                (emit (UrlOpen (lookup_url E (JStr "AQADtMmY") 215))
                   (emit (fingerprinted 215)
                      (emit (Run (fpcalc_cmd Demo.song))
                         (emit analyzing
                            (emit (Run (ffprobe_cmd Demo.song))
                               (emit (processing Demo.song)
                                  (Demo.start Unrecognised))))))))
      as (line & Heq & _); [reflexivity..|].
    rewrite Heq. reflexivity.
Defined.

(** ** The release resolver *)

Lemma py_get_object k fields default :
  py_get (JObj fields) k default =
    Ok (match assoc k fields with Some v => v | None => default end).
Proof. simpl. by destruct (assoc k fields). Qed.

(** On a list of objects the loop of [get_cover_art_url] finds the first
    image flagged as front and hands back its [image] field. *)
Lemma front_image_find images :
  forallb is_object images = true ->
  front_image images = Ok (image_url <$> List.find flagged_front images).
Proof.
  induction images as [|img rest IH]; [done|].
  simpl. intros [Himg Hrest]%andb_true_iff.
  destruct img as [| | | | | |fields]; try done.
  unfold flagged_front, image_url. simpl. unfold rbind.
  destruct (assoc "front" fields) as [f|]; simpl.
  - destruct (truthy f); [|by apply IH].
    simpl. by destruct (assoc "image" fields).
  - by apply IH.
Qed.

Lemma select_image_objects data images :
  py_get data "images" (JArr []) = Ok (JArr images) ->
  forallb is_object images = true ->
  select_image data = Ok (preferred_image images).
Proof.
  intros Hget Hobj. unfold select_image, preferred_image.
  rewrite Hget. simpl. rewrite (front_image_find _ Hobj). simpl.
  destruct (List.find flagged_front images) as [img|]; [done|]. simpl.
  destruct images as [|first rest]; [done|]. simpl in *.
  apply andb_true_iff in Hobj as [Hfirst _].
  destruct first; try done. unfold image_url, field.
  apply py_get_object.
Qed.

Lemma get_cover_art_url_parsed E release_id st data st1 image :
  urlopen_json E (CoverArtRelease release_id) st = (Ok data, st1) ->
  select_image data = Ok image ->
  get_cover_art_url E release_id st = (Ok image, st1).
Proof.
  intros Hresp Hsel. unfold get_cover_art_url. unfold_m.
  by rewrite Hresp, Hsel.
Qed.

(** C5: on an art-index response whose images list holds objects,
    [get_cover_art_url] returns the [image] field of the first image flagged
    as front when there is one, else that of the first listed image when the
    list is not empty, else [None]. *)
Theorem cover_art_prefers_front E release_id st data st1 images :
  urlopen_json E (CoverArtRelease release_id) st = (Ok data, st1) ->
  py_get data "images" (JArr []) = Ok (JArr images) ->
  forallb is_object images = true ->
  get_cover_art_url E release_id st = (Ok (preferred_image images), st1) /\
  (forall img, List.find flagged_front images = Some img ->
     preferred_image images = image_url img) /\
  (List.find flagged_front images = None ->
   forall first rest, images = first :: rest ->
     preferred_image images = image_url first) /\
  (images = [] -> preferred_image images = JNull).
Proof.
  intros Hresp Hget Hobj. split.
  - eapply get_cover_art_url_parsed; [done|]. by apply select_image_objects.
  - unfold preferred_image. repeat split.
    + by intros img ->.
    + by intros -> first rest ->.
    + by intros ->.
Qed.

Lemma cover_art_prefers_front_witness :
  let back := JObj [("front", JBool false); ("image", JStr "https://art/back.jpg")] in
  let front := JObj [("front", JBool true); ("image", JStr "https://art/front.jpg")] in
  let E := fun reply =>
    Demo.world (Demo.exited 0 "probe") (Demo.exited 0 "fp")
      (fun _ => Demo.body "art") [("art", reply)] Demo.saves in
  fst (get_cover_art_url (E (JObj [("images", JArr [back; front])]))
         (JStr "r1") (Demo.start Unrecognised)) = Ok (JStr "https://art/front.jpg") /\
  fst (get_cover_art_url (E (JObj [("images", JArr [back; back])]))
         (JStr "r1") (Demo.start Unrecognised)) = Ok (JStr "https://art/back.jpg") /\
  fst (get_cover_art_url (E (JObj [("images", JArr [])]))
         (JStr "r1") (Demo.start Unrecognised)) = Ok JNull.
Proof.
  intros back front E.
  assert (Hat : forall images,
    fst (get_cover_art_url (E (JObj [("images", JArr images)])) (JStr "r1")
           (Demo.start Unrecognised)) =
    match forallb is_object images with
    | true => Ok (preferred_image images)
    | false => fst (get_cover_art_url (E (JObj [("images", JArr images)]))
                      (JStr "r1") (Demo.start Unrecognised))
    end).
  { intros images. destruct (forallb is_object images) eqn:Hobj; [|done].
    destruct (cover_art_prefers_front (E (JObj [("images", JArr images)]))
                (JStr "r1") (Demo.start Unrecognised)
                (JObj [("images", JArr images)])
                (emit (UrlOpen (CoverArtRelease (JStr "r1")))
                   (Demo.start Unrecognised))
                images) as [Heq _]; [reflexivity|reflexivity|exact Hobj|].
    by rewrite Heq. }
  repeat split; rewrite Hat; reflexivity.
Defined.

(** C10: when the first image flagged as front has no [image] field,
    [get_cover_art_url] returns [None] at once, whatever the images before
    and after it offer. *)
Theorem front_without_url_hides_others E release_id st data st1
    before img after :
  urlopen_json E (CoverArtRelease release_id) st = (Ok data, st1) ->
  py_get data "images" (JArr []) = Ok (JArr (before ++ img :: after)) ->
  forallb is_object before = true ->
  forallb (fun i => negb (flagged_front i)) before = true ->
  flagged_front img = true ->
  field "image" img = None ->
  get_cover_art_url E release_id st = (Ok JNull, st1).
Proof.
  intros Hresp Hget Hobj Hnone Hfront Hurl.
  eapply get_cover_art_url_parsed; [done|].
  unfold select_image. rewrite Hget. simpl.
  assert (Hloop : front_image (before ++ img :: after) = Ok (Some JNull)).
  { clear Hget. induction before as [|b before IH]; simpl in *.
    - destruct img as [| | | | | |fields]; try done.
      unfold flagged_front in Hfront. simpl in *. unfold rbind.
      destruct (assoc "front" fields) as [f|]; [|done]. simpl.
      rewrite Hfront. by rewrite Hurl.
    - apply andb_true_iff in Hobj as [Hb Hobj].
      apply andb_true_iff in Hnone as [Hnb Hnone].
      destruct b as [| | | | | |fields]; try done.
      unfold flagged_front in Hnb. simpl in *. unfold rbind.
      destruct (assoc "front" fields) as [f|]; simpl.
      + apply negb_true_iff in Hnb. rewrite Hnb. by apply IH.
      + by apply IH. }
  by rewrite Hloop.
Qed.

Lemma front_without_url_hides_others_witness :
  let back := JObj [("front", JBool false); ("image", JStr "https://art/back.jpg")] in
  let broken := JObj [("front", JBool true)] in
  let front := JObj [("front", JBool true); ("image", JStr "https://art/front.jpg")] in
  let reply := JObj [("images", JArr [back; broken; front])] in
  let E := Demo.world (Demo.exited 0 "probe") (Demo.exited 0 "fp")
             (fun _ => Demo.body "art") [("art", reply)] Demo.saves in
  fst (get_cover_art_url E (JStr "r1") (Demo.start Unrecognised)) = Ok JNull.
Proof.
  intros back broken front reply E.
  rewrite (front_without_url_hides_others E (JStr "r1")
             (Demo.start Unrecognised) reply
             (emit (UrlOpen (CoverArtRelease (JStr "r1")))
                (Demo.start Unrecognised))
             [back] broken [front]); reflexivity.
Defined.

Lemma get_cover_art_url_http_error E release_id st code :
  urlopen_read E (emit (UrlOpen (CoverArtRelease release_id)) st)
    (CoverArtRelease release_id) = Raise (HTTPError code) ->
  get_cover_art_url E release_id st =
    (Ok JNull,
     emit (if code =? 404
           then Log WARNING "No cover art found for release {release_id}"
                  [AVal release_id]
           else Log ERROR "HTTP error fetching cover art: {e}"
                  [AExn (HTTPError code)])
       (emit (UrlOpen (CoverArtRelease release_id)) st)).
Proof.
  intros Hresp. unfold get_cover_art_url, urlopen_json. unfold_m. simpl.
  rewrite Hresp. simpl. by destruct (code =? 404).
Qed.

(** C6: a release lookup answered by HTTP 404 makes [get_cover_art_url]
    return [None] after one warning-level line and no error-level line;
    any other HTTP status is logged at error level; and in the release loop
    of [process_file] a release answered by 404 is passed over: the loop
    goes on with the releases after it. *)
Theorem not_found_is_no_art E filepath :
  (forall release_id st,
     urlopen_read E (emit (UrlOpen (CoverArtRelease release_id)) st)
       (CoverArtRelease release_id) = Raise (HTTPError 404) ->
     get_cover_art_url E release_id st =
       (Ok JNull,
        emit (Log WARNING "No cover art found for release {release_id}"
                [AVal release_id])
          (emit (UrlOpen (CoverArtRelease release_id)) st))) /\
  (forall release_id st code,
     code <> 404 ->
     urlopen_read E (emit (UrlOpen (CoverArtRelease release_id)) st)
       (CoverArtRelease release_id) = Raise (HTTPError code) ->
     get_cover_art_url E release_id st =
       (Ok JNull,
        emit (Log ERROR "HTTP error fetching cover art: {e}"
                [AExn (HTTPError code)])
          (emit (UrlOpen (CoverArtRelease release_id)) st))) /\
  (forall fields rest st release_id,
     assoc "id" fields = Some release_id ->
     truthy release_id = true ->
     let trying :=
       Log INFO "Trying release: {title} ({release_id})"
         [AVal (match assoc "title" fields with
                | Some title => title
                | None => JStr "Unknown"
                end);
          AVal release_id] in
     urlopen_read E
       (emit (UrlOpen (CoverArtRelease release_id)) (emit trying st))
       (CoverArtRelease release_id) = Raise (HTTPError 404) ->
     for_each (try_release E filepath) (JObj fields :: rest) st =
     for_each (try_release E filepath) rest
       (emit (Log WARNING "No cover art found for release {release_id}"
                [AVal release_id])
          (emit (UrlOpen (CoverArtRelease release_id)) (emit trying st)))).
Proof.
  split; [|split].
  - intros release_id st H.
    by rewrite (get_cover_art_url_http_error _ _ _ _ H).
  - intros release_id st code Hcode H.
    rewrite (get_cover_art_url_http_error _ _ _ _ H).
    by destruct (Z.eqb_spec code 404).
  - intros fields rest st release_id Hid Htruthy trying H.
    cbn [for_each]. unfold try_release. unfold_m.
    rewrite !py_get_object, Hid, Htruthy. cbn [negb].
    fold trying. unfold tell. cbn beta iota.
    by rewrite (get_cover_art_url_http_error _ _ _ _ H).
Qed.

Lemma not_found_is_no_art_witness :
  let E := Demo.world (Demo.exited 0 "probe") (Demo.exited 0 "fp")
             (fun r => match r with
                       | CoverArtRelease (JStr "r1") => Raise (HTTPError 404)
                       | _ => Raise (HTTPError 503)
                       end) [] Demo.saves in
  let st := Demo.start Unrecognised in
  fst (get_cover_art_url E (JStr "r1") st) = Ok JNull /\
  fst (get_cover_art_url E (JStr "r2") st) = Ok JNull /\
  for_each (try_release E Demo.song) [JObj [("id", JStr "r1")]] st =
    (Ok Next,
     {| fs := fs st;
        trace :=
          [Log INFO "Trying release: {title} ({release_id})"
             [AVal (JStr "Unknown"); AVal (JStr "r1")];
           UrlOpen (CoverArtRelease (JStr "r1"));
           Log WARNING "No cover art found for release {release_id}"
             [AVal (JStr "r1")]] |}).
Proof.
  intros E st.
  destruct (not_found_is_no_art E Demo.song) as (H404 & Hother & Hnext).
  split; [|split].
  - rewrite (H404 (JStr "r1") st); reflexivity.
  - rewrite (Hother (JStr "r2") st 503); [reflexivity|lia|reflexivity].
  - rewrite (Hnext [("id", JStr "r1")] [] st (JStr "r1"));
      reflexivity.
Defined.

(** ** The tag embedder *)

Lemma embed_cover_art_unfold E filepath image_data st :
  let st1 := emit (MutagenFile filepath) st in
  let st2 := emit (Save filepath) st1 in
  let failed e := emit (Log ERROR "Failed to embed cover art: {e}" [AExn e]) in
  embed_cover_art E filepath image_data st =
    match fs st !! filepath with
    | None => (Ok false, failed MutagenError st1)
    | Some (Unreadable e) => (Ok false, failed e st1)
    | Some Unrecognised =>
        (Ok false, emit (Log ERROR "Unsupported file format" []) st1)
    | Some (Audio audio) =>
        match set_cover audio image_data with
        | Raise e => (Ok false, failed e st1)
        | Ok audio' =>
            match mutagen_save E st2 filepath audio' with
            | Saved =>
                (Ok true,
                 emit (Log INFO "Successfully embedded cover art in {filepath}"
                         [AStr filepath])
                   (write filepath (Audio audio') st2))
            | SaveFailed e f => (Ok false, failed e (write filepath f st2))
            end
        end
    end.
Proof.
  intros st1 st2 failed. unfold embed_cover_art, File, save. unfold_m.
  cbn [fst snd emit fs trace].
  destruct (fs st !! filepath) as [[e| |audio]|]; try reflexivity.
  destruct (set_cover audio image_data) as [audio'|e]; [|reflexivity].
  fold st1. fold st2. by destruct (mutagen_save E st2 filepath audio').
Qed.

Lemma prefix_nil s : String.prefix "" s = true.
Proof. by destruct s. Qed.

Lemma prefix_append a b : String.prefix a (a +:+ b) = true.
Proof.
  induction a as [|c a IH]; simpl; [apply prefix_nil|].
  by destruct (Ascii.ascii_dec c c).
Qed.

Lemma prefix_shorter a b k :
  String.prefix a k = false -> String.prefix (a +:+ b) k = false.
Proof.
  revert k. induction a as [|c a IH]; intros k; simpl.
  - by rewrite prefix_nil.
  - destruct k as [|c' k]; [done|]. simpl.
    destruct (Ascii.ascii_dec c c'); [apply IH|done].
Qed.

Lemma loaded_no_bare_key tags :
  id3_loaded tags -> tags !! "APIC" = None.
Proof.
  intros Hl. destruct (tags !! "APIC") as [f|] eqn:Hf; [|done].
  destruct (Hl _ _ Hf) as [Hk Hid]. destruct f as [a|k body].
  - discriminate Hk.
  - simpl in Hk. subst k. discriminate Hid.
Qed.

(** After [delall('APIC')] on loaded tags no picture frame is left and the
    other frames are all there. *)
Lemma delall_loaded tags k f :
  id3_loaded tags ->
  delall "APIC" tags !! k = Some f <->
  tags !! k = Some f /\ exists k' body, f = FrameOther k' body.
Proof.
  intros Hl. unfold delall. rewrite (loaded_no_bare_key _ Hl).
  rewrite map_lookup_filter_Some. cbn [fst]. split.
  - intros [Hk Hpre]. split; [done|].
    destruct (Hl _ _ Hk) as [-> _]. destruct f as [a|k' body]; [|eauto].
    change (HashKey (FrameAPIC a)) with (("APIC" +:+ ":") +:+ apic_desc a) in Hpre.
    by rewrite prefix_append in Hpre.
  - intros [Hk (k' & body & ->)]. split; [done|].
    destruct (Hl _ _ Hk) as [-> Hid]. by apply prefix_shorter.
Qed.

Lemma delall_free_key tags a :
  id3_loaded tags ->
  delall "APIC" tags !! HashKey (FrameAPIC a) = None.
Proof.
  intros Hl. destruct (delall "APIC" tags !! _) as [f|] eqn:Hf; [|done].
  apply delall_loaded in Hf as [Hk (k' & body & ->)]; [|done].
  destruct (Hl _ _ Hk) as [Heq Hid]. simpl in Heq, Hid. subst k'.
  change ("APIC:" +:+ apic_desc a) with ("APIC" +:+ (":" +:+ apic_desc a)) in Hid.
  by rewrite prefix_append in Hid.
Qed.

Lemma add_fresh (a : APIC) (tags : gmap string frame) :
  tags !! HashKey (FrameAPIC a) = None ->
  add a tags = <[HashKey (FrameAPIC a) := FrameAPIC a]> tags.
Proof. intros H. unfold add. cbn [add_apic]. by rewrite H. Qed.

(** The pictures among the frames once the new one has been added to tags
    that hold no picture. *)
Lemma pictures_after_add (a : APIC) (tags : gmap string frame) :
  tags !! HashKey (FrameAPIC a) = None ->
  (forall k f, tags !! k = Some f -> apic_of f = None) ->
  omap apic_of (map_to_list (<[HashKey (FrameAPIC a) := FrameAPIC a]> tags)).*2
    = [a].
Proof.
  intros Hfree Hnone.
  apply Permutation_singleton_r.
  rewrite map_to_list_insert by done. simpl.
  assert (Hrest : omap apic_of (map_to_list tags).*2 = []).
  { assert (H : Forall (fun kf => apic_of kf.2 = None) (map_to_list tags)).
    { apply Forall_forall. intros [k f] Hin%elem_of_map_to_list. eauto. }
    induction H as [|kf l Hkf _ IH]; [done|]. simpl. by rewrite Hkf. }
  exact (eq_ind_r (fun l => a :: l ≡ₚ [a]) (reflexivity _) Hrest).
Qed.

Lemma ensure_id3_loaded tags t :
  loaded (ID3FileType tags) ->
  ensure_tags (fun t : gmap string frame => bool_decide (t = ∅)) ∅ tags = Ok t ->
  id3_loaded t.
Proof.
  destruct tags as [t0|]; simpl.
  - intros Hl. destruct (bool_decide (t0 = ∅)); [done|]. by intros [= <-].
  - intros _ [= <-]. apply map_Forall_empty.
Qed.

(** What the format dispatch leaves in the object that is then saved. *)
Lemma set_cover_pictures audio image_data audio' :
  loaded audio ->
  set_cover audio image_data = Ok audio' ->
  match audio with
  | MP4 _ => pictures_of audio' = [InMP4 (jpeg_cover image_data)]
  | FLAC _ _ => pictures_of audio' = [InFLAC (jpeg_picture image_data)]
  | ID3FileType _ => pictures_of audio' = [InID3 (jpeg_apic image_data)]
  | OtherFileType _ => False
  end.
Proof.
  intros Hl Hset. destruct audio as [[t|]|comments pictures|tags|tags];
    simpl in Hset.
  - injection Hset as <-. simpl. by rewrite lookup_insert_eq.
  - done.
  - by injection Hset as <-.
  - unfold rbind in Hset.
    destruct (ensure_tags _ _ tags) as [t|e] eqn:Ht; [|done].
    injection Hset as <-.
    apply (ensure_id3_loaded _ _ Hl) in Ht.
    pose proof (delall_free_key t (jpeg_apic image_data) Ht) as Hfree.
    unfold pictures_of. rewrite (add_fresh _ _ Hfree).
    rewrite pictures_after_add; [done|done|].
    intros k f Hk. by apply delall_loaded in Hk as [_ (k' & body & ->)].
  - unfold rbind in Hset. by destruct (ensure_other_tags tags).
Qed.

(** C7: when [embed_cover_art] succeeds on a file holding an MPEG-4, FLAC
    or ID3 container as the library loads it, the container then stored
    under the path holds exactly one picture: its bytes are the payload and
    its MIME type is ["image/jpeg"]; in FLAC and ID3 it has the front-cover
    type 3, in ID3 the description ["Cover"].  No other container lets the
    embed succeed. *)
Theorem embed_leaves_one_picture E filepath image_data st st1 audio :
  fs st !! filepath = Some (Audio audio) ->
  loaded audio ->
  embed_cover_art E filepath image_data st = (Ok true, st1) ->
  exists audio' picture,
    fs st1 !! filepath = Some (Audio audio') /\
    pictures_of audio' = [picture] /\
    picture_bytes picture = image_data /\
    picture_mime picture = "image/jpeg" /\
    match audio with
    | MP4 _ => picture = InMP4 (jpeg_cover image_data)
    | FLAC _ _ =>
        picture = InFLAC (jpeg_picture image_data) /\
        picture_type picture = Some 3
    | ID3FileType _ =>
        picture = InID3 (jpeg_apic image_data) /\
        picture_type picture = Some 3 /\
        picture_desc picture = Some "Cover"
    | OtherFileType _ => False
    end.
Proof.
  intros Hfile Hl Hembed.
  rewrite embed_cover_art_unfold, Hfile in Hembed. cbv zeta in Hembed.
  destruct (set_cover audio image_data) as [audio'|e] eqn:Hset; [|done].
  destruct (mutagen_save E _ filepath audio'); [|done].
  injection Hembed as <-.
  pose proof (set_cover_pictures _ _ _ Hl Hset) as Hpics.
  exists audio'. destruct audio; [| | |done]; eexists;
    (split; [apply lookup_insert_eq|]); (split; [exact Hpics|]);
    repeat split; reflexivity.
Qed.

Lemma embed_leaves_one_picture_witness :
  Forall
    (fun audio =>
       exists audio' picture,
         fs (snd (embed_cover_art Demo.quiet Demo.song Demo.jpeg
                    (Demo.start (Audio audio)))) !! Demo.song =
           Some (Audio audio') /\
         pictures_of audio' = [picture] /\
         picture_bytes picture = Demo.jpeg /\
         picture_mime picture = "image/jpeg")
    [Demo.m4a; Demo.flac; Demo.mp3].
Proof.
  assert (Hat : forall audio,
    loaded audio ->
    fst (embed_cover_art Demo.quiet Demo.song Demo.jpeg
           (Demo.start (Audio audio))) = Ok true ->
    exists audio' picture,
      fs (snd (embed_cover_art Demo.quiet Demo.song Demo.jpeg
                 (Demo.start (Audio audio)))) !! Demo.song =
        Some (Audio audio') /\
      pictures_of audio' = [picture] /\
      picture_bytes picture = Demo.jpeg /\
      picture_mime picture = "image/jpeg").
  { intros audio Hl Hok.
    destruct (embed_leaves_one_picture Demo.quiet Demo.song Demo.jpeg
                (Demo.start (Audio audio))
                (snd (embed_cover_art Demo.quiet Demo.song Demo.jpeg
                        (Demo.start (Audio audio))))
                audio)
      as (audio' & picture & H1 & H2 & H3 & H4 & _).
    - apply lookup_singleton_eq.
    - exact Hl.
    - rewrite <- Hok. apply surjective_pairing.
    - by exists audio', picture. }
  repeat constructor; apply Hat; try exact I; try reflexivity.
  cbv [loaded Demo.mp3 id3_loaded].
  refine (bool_decide_unpack (map_Forall frame_loaded _) _).
  vm_compute. exact I.
Defined.

(** ** Who writes the file store *)

Lemma keeps_ret {A} (a : A) : keeps_fs (ret a).
Proof. done. Qed.

Lemma keeps_raise {A} e : keeps_fs (@raise A e).
Proof. done. Qed.

Lemma keeps_lift {A} (r : result A) : keeps_fs (lift r).
Proof. done. Qed.

Lemma keeps_tell e : keeps_fs (tell e).
Proof. done. Qed.

Lemma keeps_logger l t args : keeps_fs (logger l t args).
Proof. done. Qed.

Lemma keeps_ask {A} (f : state -> result A) : keeps_fs (fun st => (f st, st)).
Proof. done. Qed.

Lemma keeps_bind {A B} (m : M A) (k : A -> M B) :
  keeps_fs m -> (forall a, keeps_fs (k a)) -> keeps_fs (bind m k).
Proof.
  intros Hm Hk st. unfold bind. specialize (Hm st).
  destruct (m st) as [[a|e] st']; simpl in *; [|done].
  by rewrite Hk.
Qed.

Lemma keeps_try_except {A} (m : M A) (h : exn -> M A) :
  keeps_fs m -> (forall e, keeps_fs (h e)) -> keeps_fs (try_except m h).
Proof.
  intros Hm Hh st. unfold try_except. specialize (Hm st).
  destruct (m st) as [[a|e] st']; simpl in *; [done|].
  by rewrite Hh.
Qed.

Ltac keeps :=
  repeat first
    [ apply keeps_ret | apply keeps_raise | apply keeps_lift
    | apply keeps_tell | apply keeps_logger | apply keeps_ask
    | apply keeps_bind; [|intros ?]
    | apply keeps_try_except; [|intros ?]
    | match goal with
      | |- keeps_fs (match ?x with _ => _ end) => destruct x
      end ].

Lemma keeps_run E cmd check : keeps_fs (run E cmd check).
Proof. unfold run. keeps. Qed.

Lemma keeps_urlopen_json E r : keeps_fs (urlopen_json E r).
Proof. unfold urlopen_json. keeps. Qed.

Lemma keeps_has_cover_art E filepath : keeps_fs (has_cover_art E filepath).
Proof. unfold has_cover_art. keeps. Qed.

Lemma keeps_run_fpcalc E filepath : keeps_fs (run_fpcalc E filepath).
Proof. unfold run_fpcalc. keeps. Qed.

Lemma keeps_lookup_acoustid E fingerprint duration :
  keeps_fs (lookup_acoustid E fingerprint duration).
Proof. unfold lookup_acoustid. keeps. Qed.

Lemma keeps_get_cover_art_url E release_id :
  keeps_fs (get_cover_art_url E release_id).
Proof. unfold get_cover_art_url. keeps. Qed.

Lemma keeps_download_image E url : keeps_fs (download_image E url).
Proof. unfold download_image. keeps. Qed.

Lemma unless_keeps {A} escape (good : A -> Prop) (m : M A) :
  keeps_fs m -> keeps_fs_unless escape good m.
Proof. intros H st. by left. Qed.

Lemma unless_bind {A B} escape (good : B -> Prop) (m : M A) (k : A -> M B) :
  keeps_fs m ->
  (forall a, keeps_fs_unless escape good (k a)) ->
  keeps_fs_unless escape good (bind m k).
Proof.
  intros Hm Hk st. unfold bind. specialize (Hm st).
  destruct (m st) as [[a|e] st']; simpl in *; [|by left].
  rewrite <- Hm. apply Hk.
Qed.

Lemma unless_bind_last {A B} escape (found : A -> Prop) (good : B -> Prop)
    (m : M A) (k : A -> M B) :
  keeps_fs_unless escape found m ->
  (forall a, keeps_fs (k a)) ->
  (forall a st, found a -> exists b, fst (k a st) = Ok b /\ good b) ->
  keeps_fs_unless escape good (bind m k).
Proof.
  intros Hm Hk Hgood st. unfold bind. specialize (Hm st).
  destruct (m st) as [r st']; simpl in *.
  destruct Hm as [Hm|[Hesc|(a & -> & Ha)]].
  - left. destruct r as [a|e]; [|done]. by rewrite Hk.
  - by right; left.
  - right; right. apply Hgood, Ha.
Qed.

(** The one place that writes: a save.  When it fails, the path holds
    what the library left there. *)
Lemma embed_cover_art_unless E filepath image_data :
  keeps_fs_unless (torn_save E filepath) (fun b => b = true)
    (embed_cover_art E filepath image_data).
Proof.
  intros st. rewrite embed_cover_art_unfold. cbv zeta.
  destruct (fs st !! filepath) as [[e| |audio]|] eqn:Hfile; try by left.
  destruct (set_cover audio image_data) as [audio'|e]; [|by left].
  destruct (mutagen_save E _ filepath audio') as [|e f] eqn:Hsave.
  - right; right. by exists true.
  - destruct (decide (fs st !! filepath = Some f)) as [Hsame|Hdiff].
    + left. simpl. by apply insert_id.
    + right; left. eexists _, audio', e, f.
      split; [|split; [exact Hsave|]]; [done|done].
Qed.

Lemma try_release_unless E filepath release :
  keeps_fs_unless (torn_save E filepath) (fun r => r = Return true)
    (try_release E filepath release).
Proof.
  unfold try_release.
  apply unless_bind; [keeps|intros release_id].
  destruct (negb (truthy release_id)); [apply unless_keeps; keeps|].
  apply unless_bind; [keeps|intros title].
  apply unless_bind; [keeps|intros _].
  apply unless_bind; [apply keeps_get_cover_art_url|intros cover_url].
  destruct (negb (truthy cover_url)); [apply unless_keeps; keeps|].
  apply unless_bind; [keeps|intros _].
  apply unless_bind; [apply keeps_download_image|intros image_data].
  destruct (negb (data_truthy image_data)); [apply unless_keeps; keeps|].
  apply unless_bind; [keeps|intros _].
  eapply unless_bind_last; [by apply embed_cover_art_unless| |].
  - intros embedded. keeps.
  - intros embedded st ->. by exists (Return true).
Qed.

Lemma for_each_unless {A} escape (body : A -> M flow) items :
  (forall x, keeps_fs_unless escape (fun r => r = Return true) (body x)) ->
  keeps_fs_unless escape (fun r => r = Return true) (for_each body items).
Proof.
  intros Hbody. induction items as [|x rest IH]; [by left|].
  intros st. cbn [for_each]. unfold bind. specialize (Hbody x st).
  destruct (body x st) as [r st']; simpl in *.
  destruct Hbody as [Hfs|[Hesc|(a & -> & ->)]];
    [|by right; left|right; right; by eexists].
  destruct r as [[|v]|e]; try by left.
  rewrite <- Hfs. apply IH.
Qed.

Lemma try_recording_unless E filepath recording :
  keeps_fs_unless (torn_save E filepath) (fun r => r = Return true)
    (try_recording E filepath recording).
Proof.
  unfold try_recording.
  apply unless_bind; [keeps|intros releases].
  destruct (negb (truthy releases)); [apply unless_keeps; keeps|].
  apply unless_bind; [keeps|intros items].
  apply for_each_unless. intros x. by apply try_release_unless.
Qed.

Lemma try_result_unless E filepath result :
  keeps_fs_unless (torn_save E filepath) (fun r => r = Return true)
    (try_result E filepath result).
Proof.
  unfold try_result.
  apply unless_bind; [keeps|intros recordings].
  destruct (negb (truthy recordings)); [apply unless_keeps; keeps|].
  apply unless_bind; [keeps|intros items].
  apply for_each_unless. intros x. by apply try_recording_unless.
Qed.

Lemma scan_results_unless E filepath results :
  keeps_fs_unless (torn_save E filepath) (fun b => b = true)
    (scan_results E filepath results).
Proof.
  unfold scan_results.
  apply unless_bind; [keeps|intros items].
  eapply unless_bind_last.
  - apply for_each_unless. intros x. by apply try_result_unless.
  - intros r. keeps.
  - intros r st ->. by exists true.
Qed.

Lemma process_file_unless E filepath :
  keeps_fs_unless (torn_save E filepath) (fun b => b = true)
    (process_file E filepath).
Proof.
  unfold process_file.
  apply unless_bind; [keeps|intros _].
  apply unless_bind; [apply keeps_has_cover_art|intros covered].
  destruct covered; [apply unless_keeps; keeps|].
  apply unless_bind; [keeps|intros _].
  apply unless_bind; [apply keeps_run_fpcalc|intros [fingerprint duration]].
  destruct (fingerprint_failed fingerprint duration);
    [apply unless_keeps; keeps|].
  apply unless_bind; [keeps|intros _].
  apply unless_bind; [apply keeps_lookup_acoustid|intros results].
  destruct (negb (truthy results)); [apply unless_keeps; keeps|].
  apply unless_bind; [keeps|intros n].
  apply unless_bind; [keeps|intros _].
  by apply scan_results_unless.
Qed.

(** C8, as stated, fails where the save itself fails after it has written:
    [embed_cover_art] returns [False] on a file that now holds the new
    picture, and [process_file] reports failure on a changed file. *)
Lemma failed_save_changes_file :
  fst (embed_cover_art Demo.torn Demo.song Demo.jpeg
         (Demo.start (Audio Demo.flac))) = Ok false /\
  fs (snd (embed_cover_art Demo.torn Demo.song Demo.jpeg
             (Demo.start (Audio Demo.flac)))) !! Demo.song =
    Some (Audio (FLAC [("TITLE", "Title")] [jpeg_picture Demo.jpeg])) /\
  fs (snd (embed_cover_art Demo.torn Demo.song Demo.jpeg
             (Demo.start (Audio Demo.flac)))) <>
    fs (Demo.start (Audio Demo.flac)) /\
  fst (process_file Demo.torn Demo.song (Demo.start (Audio Demo.flac))) =
    Ok false /\
  fs (snd (process_file Demo.torn Demo.song (Demo.start (Audio Demo.flac)))) <>
    fs (Demo.start (Audio Demo.flac)).
Proof.
  repeat split; try reflexivity;
    intros Heq; apply (f_equal (fun m => m !! Demo.song)) in Heq;
    vm_compute in Heq; discriminate Heq.
Qed.

(** C8, amended: on a file the tag reader does not recognise,
    [embed_cover_art] returns [False] and the file store is as it was.
    Whenever [embed_cover_art] returns [False], either the file store is as
    it was, or the format dispatch went through and it is the save itself
    that failed: the path then holds what the library left behind, which
    the script does not undo.  A run of [process_file] that changes the
    file store is one that returns [True], or one whose save of the file
    fails and leaves something else than the file that was there. *)
Theorem only_save_changes_file E filepath image_data st :
  (fs st !! filepath = Some Unrecognised ->
   embed_cover_art E filepath image_data st =
     (Ok false,
      {| fs := fs st;
         trace := trace st ++
           [MutagenFile filepath; Log ERROR "Unsupported file format" []] |})) /\
  (forall st1,
     embed_cover_art E filepath image_data st = (Ok false, st1) ->
     fs st1 = fs st \/
     exists audio audio' e f,
       fs st !! filepath = Some (Audio audio) /\
       set_cover audio image_data = Ok audio' /\
       mutagen_save E (emit (Save filepath) (emit (MutagenFile filepath) st))
         filepath audio' = SaveFailed e f /\
       fs st1 = <[filepath := f]> (fs st)) /\
  (forall r st1,
     process_file E filepath st = (r, st1) ->
     fs st1 <> fs st ->
     r = Ok true \/ torn_save E filepath (fs st)).
Proof.
  split; [|split].
  - intros Hfile. rewrite embed_cover_art_unfold, Hfile. cbv zeta.
    f_equal. trace_eq.
  - intros st1 Hembed.
    rewrite embed_cover_art_unfold in Hembed. cbv zeta in Hembed.
    destruct (fs st !! filepath) as [[e| |audio]|] eqn:Hfile;
      try (left; by injection Hembed as <-).
    destruct (set_cover audio image_data) as [audio'|e] eqn:Hset;
      [|left; by injection Hembed as <-].
    destruct (mutagen_save E _ filepath audio') as [|e f] eqn:Hsave; [done|].
    right. exists audio, audio', e, f. by injection Hembed as <-.
  - intros r st1 Hrun Hchanged.
    destruct (process_file_unless E filepath st)
      as [Hfs|[Hesc|(b & Hb & ->)]].
    + rewrite Hrun in Hfs. done.
    + by right.
    + rewrite Hrun in Hb. left. exact Hb.
Qed.

Lemma only_save_changes_file_witness :
  embed_cover_art Demo.full Demo.song Demo.jpeg (Demo.start Unrecognised) =
    (Ok false,
     {| fs := {[ Demo.song := Unrecognised ]};
        trace := [MutagenFile Demo.song;
                  Log ERROR "Unsupported file format" []] |}) /\
  fs (snd (embed_cover_art Demo.readonly Demo.song Demo.jpeg
             (Demo.start (Audio Demo.flac)))) = {[ Demo.song := Audio Demo.flac ]} /\
  fst (process_file Demo.full Demo.song (Demo.start (Audio Demo.mp3))) = Ok true.
Proof.
  split; [|split].
  - apply (only_save_changes_file Demo.full Demo.song Demo.jpeg
             (Demo.start Unrecognised)).
    reflexivity.
  - destruct (proj1 (proj2 (only_save_changes_file Demo.readonly Demo.song
                              Demo.jpeg (Demo.start (Audio Demo.flac))))
                (snd (embed_cover_art Demo.readonly Demo.song Demo.jpeg
                        (Demo.start (Audio Demo.flac)))) eq_refl)
      as [Hfs|(audio & audio' & e & f & _ & _ & Hsave & Hfs)].
    + exact Hfs.
    + rewrite Hfs. injection Hsave as _ <-. reflexivity.
  - destruct (proj2 (proj2 (only_save_changes_file Demo.full Demo.song
                              Demo.jpeg (Demo.start (Audio Demo.mp3))))
                _ (snd (process_file Demo.full Demo.song
                          (Demo.start (Audio Demo.mp3))))
                (surjective_pairing _))
      as [Hr|(s & audio & e & f & _ & Hsave & _)].
    + intros Heq. apply (f_equal (fun m => m !! Demo.song)) in Heq.
      vm_compute in Heq. discriminate Heq.
    + exact Hr.
    + discriminate Hsave.
Defined.

(** ** The scan over the candidates *)

Lemma for_each_app {A} (body : A -> M flow) xs ys st :
  for_each body (xs ++ ys) st =
    (r <- for_each body xs ;;
     match r with
     | Return v => ret (Return v)
     | Next => for_each body ys
     end) st.
Proof.
  revert st. induction xs as [|x xs IH]; intros st; [done|].
  cbn [for_each app]. unfold bind in *.
  by destruct (body x st) as [[[|v]|e] st'].
Qed.

Lemma run_seq_app body a b st :
  run_seq body (seq_app a b) st =
    (r <- run_seq body a ;;
     match r with
     | Return v => ret (Return v)
     | Next => run_seq body b
     end) st.
Proof.
  destruct a as [xs [e|]], b as [ys tail]; unfold run_seq, seq_app;
    cbn [fst snd].
  - unfold bind. by destruct (for_each body xs st) as [[[|v]|e'] st'].
  - unfold bind. rewrite for_each_app. unfold bind.
    by destruct (for_each body xs st) as [[[|v]|e'] st'].
Qed.

Lemma for_each_concat_map body (inner : json -> M flow) f items :
  (forall x st, inner x st = run_seq body (f x) st) ->
  forall st, for_each inner items st = run_seq body (concat_map f items) st.
Proof.
  intros Hinner. induction items as [|x rest IH]; intros st; [done|].
  cbn [for_each concat_map]. rewrite run_seq_app. unfold bind.
  rewrite Hinner. by destruct (run_seq body (f x) st) as [[[|v]|e] st'].
Qed.

Lemma run_seq_children body key v st :
  (items <- lift (children key v) ;; for_each body items) st =
    run_seq body (of_result (children key v)) st.
Proof.
  unfold run_seq, bind, lift.
  destruct (children key v) as [items|e]; cbn [of_result fst snd]; [|done].
  by destruct (for_each body items st) as [[[|b]|e] st'].
Qed.

Lemma try_recording_seq E filepath recording st :
  try_recording E filepath recording st =
    run_seq (try_release E filepath)
      (of_result (children "releases" recording)) st.
Proof.
  rewrite <- run_seq_children. unfold try_recording, children. unfold_m.
  destruct (py_get recording "releases" (JArr [])) as [releases|e]; [|done].
  by destruct (truthy releases).
Qed.

Lemma try_result_seq E filepath result st :
  try_result E filepath result st =
    run_seq (try_release E filepath) (releases_of_result result) st.
Proof.
  unfold try_result, releases_of_result, children. unfold_m.
  destruct (py_get result "recordings" (JArr [])) as [recordings|e]; [|done].
  destruct (truthy recordings); cbn [negb]; [|done].
  destruct (py_iter recordings) as [items|e]; [|done].
  apply for_each_concat_map. intros. apply try_recording_seq.
Qed.

Lemma for_each_result_seq E filepath results st :
  for_each (try_result E filepath) results st =
    run_seq (try_release E filepath) (candidates results) st.
Proof. apply for_each_concat_map. intros. apply try_result_seq. Qed.

Lemma try_release_no_id E filepath fields st :
  truthy (match assoc "id" fields with Some v => v | None => JNull end) = false ->
  try_release E filepath (JObj fields) st = (Ok Next, st).
Proof.
  intros Hid. unfold try_release. unfold_m. rewrite py_get_object.
  by rewrite Hid.
Qed.

(** One release, stage by stage. *)
Lemma try_release_stages E filepath fields release_id st url st1 :
  assoc "id" fields = Some release_id ->
  truthy release_id = true ->
  get_cover_art_url E release_id (emit (trying fields release_id) st) =
    (Ok url, st1) ->
  (truthy url = false ->
   try_release E filepath (JObj fields) st = (Ok Next, st1)) /\
  (truthy url = true ->
   forall image st2,
     download_image E url (emit (found_url url) st1) = (Ok image, st2) ->
     (data_truthy image = false ->
      try_release E filepath (JObj fields) st = (Ok Next, st2)) /\
     (forall b,
        image = Some b ->
        data_truthy image = true ->
        forall ok st3,
          embed_cover_art E filepath b (emit (downloaded b) st2) = (Ok ok, st3) ->
          try_release E filepath (JObj fields) st =
            if ok then (Ok (Return true), emit added st3) else (Ok Next, st3))).
Proof.
  intros Hid Htruthy Hurl.
  assert (Hstart : try_release E filepath (JObj fields) st =
    (if negb (truthy url) then ret Next else
       logger INFO "Found cover art URL: {cover_url}" [AVal url] ;;;
       image_data <- download_image E url ;;
       if negb (data_truthy image_data) then ret Next else
       let image_data := match image_data with Some b => b | None => [] end in
       logger INFO "Downloaded cover art ({len(image_data)} bytes)"
         [AInt (Z.of_nat (length image_data))] ;;;
       embedded <- embed_cover_art E filepath image_data ;;
       if embedded
       then logger INFO "Successfully added cover art!" [] ;;; ret (Return true)
       else ret Next) st1).
  { unfold try_release. unfold bind at 1. unfold lift at 1.
    rewrite py_get_object, Hid, Htruthy. cbn [negb].
    unfold bind at 1. unfold lift at 1. rewrite py_get_object.
    unfold bind at 1. unfold logger at 1, tell at 1.
    unfold bind at 1. fold (trying fields release_id). by rewrite Hurl. }
  rewrite Hstart. clear Hstart. split.
  - by intros ->.
  - intros -> image st2 Hdl. cbn [negb].
    assert (Hnext : forall (k : option bytes -> M flow),
      (logger INFO "Found cover art URL: {cover_url}" [AVal url] ;;;
       image_data <- download_image E url ;; k image_data) st1 = k image st2).
    { intros k. unfold_m. unfold tell. cbn beta iota. fold (found_url url).
      by rewrite Hdl. }
    rewrite Hnext. clear Hnext. split.
    + by intros ->.
    + intros b -> Hdata ok st3 Hembed. rewrite Hdata. cbn [negb].
      unfold_m. unfold tell. cbn beta iota. fold (downloaded b).
      rewrite Hembed.
      by destruct ok.
Qed.

(** C1: [process_file] walks the lookup candidates in nested order (each
    result, its recordings, each recording's releases): its scan is the
    scan of the flattened sequence of releases.  A release is passed over
    when it has no identifier, when no art URL is resolved, when the
    download yields nothing and when the embed fails; the scan returns
    [True] at the first release whose embed succeeds, without touching the
    releases after it, and returns [False] when every candidate has been
    passed over. *)
Theorem scan_tries_releases_in_order E filepath results :
  (forall st,
     for_each (try_result E filepath) results st =
       run_seq (try_release E filepath) (candidates results) st) /\
  (forall fields st,
     truthy (match assoc "id" fields with Some v => v | None => JNull end)
       = false ->
     try_release E filepath (JObj fields) st = (Ok Next, st)) /\
  (forall fields release_id st url st1,
     assoc "id" fields = Some release_id ->
     truthy release_id = true ->
     get_cover_art_url E release_id (emit (trying fields release_id) st) =
       (Ok url, st1) ->
     (truthy url = false ->
      try_release E filepath (JObj fields) st = (Ok Next, st1)) /\
     (truthy url = true ->
      forall image st2,
        download_image E url (emit (found_url url) st1) = (Ok image, st2) ->
        (data_truthy image = false ->
         try_release E filepath (JObj fields) st = (Ok Next, st2)) /\
        (forall b,
           image = Some b ->
           data_truthy image = true ->
           forall ok st3,
             embed_cover_art E filepath b (emit (downloaded b) st2) =
               (Ok ok, st3) ->
             try_release E filepath (JObj fields) st =
               if ok then (Ok (Return true), emit added st3)
               else (Ok Next, st3)))) /\
  (forall st before release after tail st1 st2,
     candidates results = (before ++ release :: after, tail) ->
     for_each (try_release E filepath) before st = (Ok Next, st1) ->
     try_release E filepath release st1 = (Ok (Return true), st2) ->
     scan_results E filepath (JArr results) st = (Ok true, st2)) /\
  (forall st releases st1,
     candidates results = (releases, None) ->
     for_each (try_release E filepath) releases st = (Ok Next, st1) ->
     scan_results E filepath (JArr results) st =
       (Ok false, emit nothing_found st1)).
Proof.
  split; [intros; apply for_each_result_seq|].
  split; [intros; by apply try_release_no_id|].
  split; [intros; by eapply try_release_stages|].
  split.
  - intros st before release after tail st1 st2 Hflat Hbefore Hrelease.
    unfold scan_results. unfold bind, lift. cbn [py_iter].
    rewrite for_each_result_seq, Hflat. unfold run_seq. cbn [fst snd].
    unfold bind. rewrite for_each_app. unfold bind. rewrite Hbefore.
    cbn [for_each]. unfold bind. by rewrite Hrelease.
  - intros st releases st1 Hflat Hall.
    unfold scan_results. unfold bind, lift. cbn [py_iter].
    rewrite for_each_result_seq, Hflat. unfold run_seq. cbn [fst snd].
    unfold bind. by rewrite Hall.
Qed.

Lemma scan_tries_releases_in_order_witness :
  let st := Demo.start (Audio Demo.mp3) in
  candidates Demo.results =
    ([Demo.first_release; Demo.second_release], None) /\
  fst (try_release Demo.full Demo.song Demo.first_release st) = Ok Next /\
  fst (scan_results Demo.full Demo.song (JArr Demo.results) st) = Ok true /\
  fst (scan_results Demo.readonly Demo.song (JArr Demo.results) st) = Ok false.
Proof.
  intros st.
  destruct (scan_tries_releases_in_order Demo.full Demo.song Demo.results)
    as (_ & _ & Hstages & Hfirst & _).
  destruct (scan_tries_releases_in_order Demo.readonly Demo.song Demo.results)
    as (_ & _ & _ & _ & Hnone).
  split; [reflexivity|]. split; [|split].
  - destruct (Hstages [("id", JStr "r1")] (JStr "r1") st JNull
                (snd (get_cover_art_url Demo.full (JStr "r1")
                        (emit (trying [("id", JStr "r1")] (JStr "r1")) st))))
      as [Hskip _]; [reflexivity..|].
    unfold Demo.first_release. rewrite Hskip; reflexivity.
  - rewrite (Hfirst st [Demo.first_release] Demo.second_release [] None
               (snd (for_each (try_release Demo.full Demo.song)
                       [Demo.first_release] st))
               (snd (try_release Demo.full Demo.song Demo.second_release
                       (snd (for_each (try_release Demo.full Demo.song)
                               [Demo.first_release] st)))));
      reflexivity.
  - rewrite (Hnone st [Demo.first_release; Demo.second_release]
               (snd (for_each (try_release Demo.readonly Demo.song)
                       [Demo.first_release; Demo.second_release] st)));
      reflexivity.
Defined.

(** * Further properties of the script *)

(** ** What a computation adds to the trace *)

Lemma closed_anything : closed anything.
Proof. by split. Qed.

Lemma emits_weaken {A} (P Q : list event -> Prop) (m : M A) :
  (forall l, P l -> Q l) -> emits P m -> emits Q m.
Proof. intros HPQ Hm st. destruct (Hm st) as (new & ? & ?). eauto. Qed.

Lemma emits_ret {A} P (a : A) : closed P -> emits P (ret a).
Proof. intros [Hnil _] st. exists []. by rewrite app_nil_r. Qed.

Lemma emits_raise {A} P e : closed P -> emits P (@raise A e).
Proof. intros [Hnil _] st. exists []. by rewrite app_nil_r. Qed.

Lemma emits_lift {A} P (r : result A) : closed P -> emits P (lift r).
Proof. intros [Hnil _] st. exists []. by rewrite app_nil_r. Qed.

Lemma emits_ask {A} P (f : state -> result A) :
  closed P -> emits P (fun st => (f st, st)).
Proof. intros [Hnil _] st. exists []. by rewrite app_nil_r. Qed.

Lemma emits_tell P e : P [e] -> emits P (tell e).
Proof. intros He st. by exists [e]. Qed.

Lemma emits_logger P l t args : P [Log l t args] -> emits P (logger l t args).
Proof. apply emits_tell. Qed.

Lemma emits_bind {A B} P (m : M A) (k : A -> M B) :
  closed P -> emits P m -> (forall a, emits P (k a)) -> emits P (bind m k).
Proof.
  intros [Hnil Happ] Hm Hk st. unfold bind.
  destruct (Hm st) as (l1 & H1 & HP1).
  destruct (m st) as [[a|e] st']; simpl in *; [|eauto].
  destruct (Hk a st') as (l2 & H2 & HP2).
  exists (l1 ++ l2). split; [|by apply Happ].
  by rewrite H2, H1, app_assoc.
Qed.

Lemma emits_try_except {A} P (m : M A) (h : exn -> M A) :
  closed P -> emits P m -> (forall e, emits P (h e)) ->
  emits P (try_except m h).
Proof.
  intros [Hnil Happ] Hm Hh st. unfold try_except.
  destruct (Hm st) as (l1 & H1 & HP1).
  destruct (m st) as [[a|e] st']; simpl in *; [eauto|].
  destruct (Hh e st') as (l2 & H2 & HP2).
  exists (l1 ++ l2). split; [|by apply Happ].
  by rewrite H2, H1, app_assoc.
Qed.

Lemma emits_for_each {A} P (body : A -> M flow) items :
  closed P -> (forall x, emits P (body x)) -> emits P (for_each body items).
Proof.
  intros HP Hbody. induction items as [|x rest IH]; [by apply emits_ret|].
  cbn [for_each]. apply emits_bind; [done|done|].
  intros [|v]; [done|by apply emits_ret].
Qed.

Lemma emits_silent {A} P (m : M A) :
  closed P -> (forall st, trace (snd (m st)) = trace st) -> emits P m.
Proof. intros [Hnil _] Hm st. exists []. by rewrite app_nil_r. Qed.

(** Every computation of the script only ever appends to the trace. *)
Ltac grows :=
  repeat first
    [ apply emits_ret; [apply closed_anything]
    | apply emits_raise; [apply closed_anything]
    | apply emits_lift; [apply closed_anything]
    | apply emits_ask; [apply closed_anything]
    | apply emits_tell; [exact I]
    | apply emits_logger; [exact I]
    | apply emits_bind; [apply closed_anything| |intros ?]
    | apply emits_try_except; [apply closed_anything| |intros ?]
    | apply emits_for_each; [apply closed_anything|intros ?]
    | match goal with
      | |- emits anything (match ?x with _ => _ end) => destruct x
      end
    | apply emits_silent;
        [apply closed_anything|intros ?; cbn beta; by repeat case_match] ].

Lemma grows_embed_cover_art E filepath image_data :
  emits anything (embed_cover_art E filepath image_data).
Proof. unfold embed_cover_art. grows. Qed.

Lemma grows_try_release E filepath release :
  emits anything (try_release E filepath release).
Proof. unfold try_release. grows. Qed.

Lemma grows_scan_results E filepath results :
  emits anything (scan_results E filepath results).
Proof. unfold scan_results. grows. Qed.

Lemma grows_process_file_tail E filepath fingerprint duration :
  emits anything
    (results <- lookup_acoustid E fingerprint duration ;;
     if negb (truthy results)
     then logger ERROR "No AcoustID results found" [] ;;; ret false
     else
       n <- lift (py_len results) ;;
       logger INFO "Found {len(results)} AcoustID result(s)" [AInt n] ;;;
       scan_results E filepath results).
Proof. grows. Qed.

Lemma emits_starts_bind {A B} e (m : M A) (k : A -> M B) :
  emits (starts_with e) m -> (forall a, emits anything (k a)) ->
  emits (starts_with e) (bind m k).
Proof.
  intros Hm Hk st. unfold bind.
  destruct (Hm st) as (l1 & H1 & rest & ->).
  destruct (m st) as [[a|x] st']; simpl in *;
    [|exists (e :: rest); split; [done|by eexists]].
  destruct (Hk a st') as (l2 & H2 & _).
  exists (e :: rest ++ l2). split; [|by eexists].
  by rewrite H2, H1, <- app_assoc.
Qed.

Lemma emits_starts_try {A} e (m : M A) (h : exn -> M A) :
  emits (starts_with e) m -> (forall x, emits anything (h x)) ->
  emits (starts_with e) (try_except m h).
Proof.
  intros Hm Hh st. unfold try_except.
  destruct (Hm st) as (l1 & H1 & rest & ->).
  destruct (m st) as [[a|x] st']; simpl in *;
    [exists (e :: rest); split; [done|by eexists]|].
  destruct (Hh x st') as (l2 & H2 & _).
  exists (e :: rest ++ l2). split; [|by eexists].
  by rewrite H2, H1, <- app_assoc.
Qed.

Lemma emits_starts_tell e : emits (starts_with e) (tell e).
Proof. intros st. exists [e]. split; [done|by eexists]. Qed.

Lemma run_starts E cmd check : emits (starts_with (Run cmd)) (run E cmd check).
Proof.
  unfold run. apply emits_starts_bind; [apply emits_starts_tell|].
  intros _. grows.
Qed.

Lemma run_fpcalc_starts E filepath :
  emits (starts_with (Run (fpcalc_cmd filepath))) (run_fpcalc E filepath).
Proof.
  unfold run_fpcalc. apply emits_starts_try.
  - apply emits_starts_bind; [apply run_starts|]. intros cp. grows.
  - intros x. grows.
Qed.

Lemma process_file_after_probe E filepath st st1 :
  has_cover_art E filepath (emit (processing filepath) st) = (Ok false, st1) ->
  process_file E filepath st = after_probe E filepath st1.
Proof.
  intros Hcov. unfold process_file, after_probe, processing in *.
  unfold bind at 1. unfold logger at 1, tell at 1. cbn beta iota.
  unfold bind at 1. by rewrite Hcov.
Qed.

Lemma from_fingerprint_starts E filepath :
  emits (starts_with (Run (fpcalc_cmd filepath))) (from_fingerprint E filepath).
Proof.
  unfold from_fingerprint.
  apply emits_starts_bind; [apply run_fpcalc_starts|].
  intros [fingerprint duration].
  destruct (fingerprint_failed fingerprint duration); [grows|].
  apply emits_bind; [apply closed_anything|grows|intros _].
  apply grows_process_file_tail.
Qed.

Lemma after_probe_starts E filepath :
  emits (fun l => exists rest,
           l = analyzing :: Run (fpcalc_cmd filepath) :: rest)
    (after_probe E filepath).
Proof.
  intros st.
  destruct (from_fingerprint_starts E filepath (emit analyzing st))
    as (new & Hnew & rest & ->).
  exists (analyzing :: Run (fpcalc_cmd filepath) :: rest).
  split; [|by eexists].
  change (after_probe E filepath st)
    with (from_fingerprint E filepath (emit analyzing st)).
  rewrite Hnew. simpl. by rewrite <- app_assoc.
Qed.

(** ** The cover check when the probe goes wrong *)

Lemma has_cover_art_probe_failure E filepath st e :
  probe_failure E filepath st = Some e ->
  has_cover_art E filepath st =
    (Ok false, emit (check_failed e) (emit (Run (ffprobe_cmd filepath)) st)).
Proof.
  unfold probe_failure, has_cover_art, run, loads. unfold_m. simpl.
  destruct (subprocess_run E _ _) as [cp|x]; simpl.
  - destruct (json_loads E (stdout cp)); [done|]. by intros [= <-].
  - by intros [= <-].
Qed.

(** X1: when the probe cannot be run or prints something that is not
    JSON, [has_cover_art] answers [False] after one error line, and
    [process_file] carries on as for a file without cover: the next thing
    it does is run the fingerprinter. *)
Theorem probe_failure_goes_on E filepath st e :
  probe_failure E filepath (emit (processing filepath) st) = Some e ->
  has_cover_art E filepath (emit (processing filepath) st) =
    (Ok false,
     emit (check_failed e)
       (emit (Run (ffprobe_cmd filepath)) (emit (processing filepath) st))) /\
  exists rest,
    trace (snd (process_file E filepath st)) =
      trace st ++
        [processing filepath; Run (ffprobe_cmd filepath); check_failed e;
         analyzing; Run (fpcalc_cmd filepath)] ++ rest.
Proof.
  intros Hfail. pose proof (has_cover_art_probe_failure _ _ _ _ Hfail) as Hcov.
  split; [done|].
  rewrite (process_file_after_probe _ _ _ _ Hcov).
  destruct (after_probe_starts E filepath
              (emit (check_failed e)
                 (emit (Run (ffprobe_cmd filepath))
                    (emit (processing filepath) st))))
    as (new & Hnew & rest & ->).
  exists rest. rewrite Hnew. simpl. rewrite <- !app_assoc. reflexivity.
Qed.

Lemma probe_failure_goes_on_witness :
  let E := Demo.world (Raise FileNotFoundError) (Demo.exited 0 "fp")
             Demo.online Demo.pages Demo.saves in
  exists rest,
    trace (snd (process_file E Demo.song (Demo.start (Audio Demo.mp3)))) =
      [processing Demo.song; Run (ffprobe_cmd Demo.song);
       check_failed FileNotFoundError; analyzing;
       Run (fpcalc_cmd Demo.song)] ++ rest.
Proof.
  intros E.
  destruct (probe_failure_goes_on E Demo.song (Demo.start (Audio Demo.mp3))
              FileNotFoundError) as [_ Hrest]; [reflexivity|].
  exact Hrest.
Defined.

(** The stream loop passes over streams without the flag. *)
Lemma attached_pic_skips before rest :
  Forall (fun s => stream_flag s = Ok false) before ->
  attached_pic (before ++ rest) = attached_pic rest.
Proof.
  induction 1 as [|s before Hs _ IH]; [done|].
  simpl. unfold stream_flag, rbind in *.
  destruct (py_get s "disposition" (JObj [])) as [d|]; [|done].
  destruct (py_get d "attached_pic" JNull) as [f|]; [|done].
  injection Hs as ->. apply IH.
Qed.

(** X2: [has_cover_art] stops at the first stream flagged as attached
    picture and never looks at the streams after it, and it does not look
    at the probe's exit status; a stream it cannot read (not an object, or
    with a disposition that is not one) makes it answer [False] even when a
    later stream carries the flag. *)
Theorem cover_check_stops_at_first_flag E filepath st data before s after :
  probe_prints E filepath st data ->
  py_get data "streams" (JArr []) = Ok (JArr (before ++ s :: after)) ->
  Forall (fun s => stream_flag s = Ok false) before ->
  (stream_flag s = Ok true ->
   has_cover_art E filepath st =
     (Ok true, emit (Run (ffprobe_cmd filepath)) st)) /\
  (forall e,
     stream_flag s = Raise e ->
     has_cover_art E filepath st =
       (Ok false,
        emit (check_failed e) (emit (Run (ffprobe_cmd filepath)) st))).
Proof.
  intros (cp & Hrun & Hjson) Hstreams Hbefore.
  assert (Hcheck : has_cover_art E filepath st =
    match attached_pic (s :: after) with
    | Ok b => (Ok b, emit (Run (ffprobe_cmd filepath)) st)
    | Raise e =>
        (Ok false, emit (check_failed e) (emit (Run (ffprobe_cmd filepath)) st))
    end).
  { unfold has_cover_art, run, loads. unfold_m. simpl.
    rewrite Hrun. simpl. rewrite Hjson, Hstreams. simpl.
    rewrite (attached_pic_skips _ _ Hbefore). reflexivity. }
  rewrite Hcheck. cbn [attached_pic]. unfold stream_flag, rbind.
  destruct (py_get s "disposition" (JObj [])) as [d|x].
  - destruct (py_get d "attached_pic" JNull) as [f|x].
    + split; [by intros [= ->]|done].
    + split; [done|by intros e [= <-]].
  - split; [done|by intros e [= <-]].
Qed.

Lemma cover_check_stops_at_first_flag_witness :
  let covered := Demo.world (Demo.exited 1 "probe") (Demo.exited 0 "fp")
                   Demo.offline [("probe", Demo.two_streams)] Demo.saves in
  let hidden := Demo.world (Demo.exited 0 "probe") (Demo.exited 0 "fp")
                  Demo.offline [("probe", Demo.bad_stream_first)] Demo.saves in
  fst (has_cover_art covered Demo.song (Demo.start Unrecognised)) = Ok true /\
  fst (has_cover_art hidden Demo.song (Demo.start Unrecognised)) = Ok false.
Proof.
  intros covered hidden. split.
  - destruct (cover_check_stops_at_first_flag covered Demo.song
                (Demo.start Unrecognised) Demo.two_streams []
                (JObj [("codec_name", JStr "mjpeg");
                       ("disposition", JObj [("attached_pic", JInt 1)])])
                [JStr "not a stream"]) as [Hyes _].
    + eexists. split; reflexivity.
    + reflexivity.
    + constructor.
    + rewrite Hyes; reflexivity.
  - destruct (cover_check_stops_at_first_flag hidden Demo.song
                (Demo.start Unrecognised) Demo.bad_stream_first []
                (JStr "not a stream")
                [JObj [("disposition", JObj [("attached_pic", JInt 1)])]])
      as [_ Hno].
    + eexists. split; reflexivity.
    + reflexivity.
    + constructor.
    + rewrite (Hno AttributeError); reflexivity.
Defined.

(** ** Fingerprinter output of the wrong shape *)

Lemma fingerprint_pair_raises E data e :
  fingerprint_pair E data = Raise e ->
  (e = AttributeError \/ e = TypeError \/ e = ValueError \/ e = OverflowError) /\
  (is_object data = false -> e = AttributeError).
Proof.
  unfold fingerprint_pair, duration_of, rbind.
  destruct data as [| | | | | |fields];
    try (intros [= <-]; split; [by left|done]).
  rewrite !py_get_object. intros H. split; [|done].
  destruct (assoc "duration" fields) as [[| | |[m x| |]|s| |]|];
    simpl in H; try discriminate; try (injection H as <-; tauto).
  - by destruct (0 <=? x).
  - destruct (int_of_str E s); [done|]. injection H as <-. tauto.
Qed.

Lemma run_fpcalc_raises E filepath st data e :
  fpcalc_prints E filepath st data ->
  fingerprint_pair E data = Raise e ->
  run_fpcalc E filepath st = (Raise e, emit (Run (fpcalc_cmd filepath)) st).
Proof.
  intros (cp & Hrun & Hcode & Hjson) Hpair.
  destruct (fingerprint_pair_raises _ _ _ Hpair) as [He _].
  unfold run_fpcalc, run, loads. unfold_m. simpl.
  rewrite Hrun, Hcode. simpl. rewrite Hjson. simpl.
  unfold fingerprint_pair, rbind in Hpair.
  destruct (py_get data "fingerprint" JNull) as [fp|x].
  - destruct (duration_of E data) as [d|x]; [done|].
    injection Hpair as ->. by destruct He as [->|[->|[->| ->]]].
  - injection Hpair as ->. by destruct He as [->|[->|[->| ->]]].
Qed.

(** X3: [run_fpcalc] handles three exceptions only.  When the
    fingerprinter exits normally and prints JSON from which the pair cannot
    be built (the value is not an object, or its duration is not a number),
    the [AttributeError], [TypeError], [ValueError] or [OverflowError]
    leaves [run_fpcalc] and [process_file] unhandled: no failure line is
    logged and nothing is returned. *)
Theorem fingerprint_shape_error_escapes E filepath st st1 data e :
  has_cover_art E filepath (emit (processing filepath) st) = (Ok false, st1) ->
  fpcalc_prints E filepath (emit analyzing st1) data ->
  fingerprint_pair E data = Raise e ->
  (e = AttributeError \/ e = TypeError \/ e = ValueError \/ e = OverflowError) /\
  (is_object data = false -> e = AttributeError) /\
  run_fpcalc E filepath (emit analyzing st1) =
    (Raise e, emit (Run (fpcalc_cmd filepath)) (emit analyzing st1)) /\
  process_file E filepath st =
    (Raise e, emit (Run (fpcalc_cmd filepath)) (emit analyzing st1)).
Proof.
  intros Hcov Hprints Hpair.
  destruct (fingerprint_pair_raises _ _ _ Hpair) as [He Hobj].
  pose proof (run_fpcalc_raises _ _ _ _ _ Hprints Hpair) as Hrun.
  repeat split; try done.
  rewrite (process_file_after_probe _ _ _ _ Hcov).
  change (after_probe E filepath st1)
    with (from_fingerprint E filepath (emit analyzing st1)).
  unfold from_fingerprint. unfold bind at 1. by rewrite Hrun.
Qed.

Lemma fingerprint_shape_error_escapes_witness :
  let E := Demo.world (Demo.exited 0 "probe") (Demo.exited 0 "fp")
             Demo.offline
             [("probe", Demo.no_picture);
              ("fp", JObj [("fingerprint", JStr "AQADtMmY");
                           ("duration", JNull)])] Demo.saves in
  fst (process_file E Demo.song (Demo.start Unrecognised)) = Raise TypeError.
Proof.
  intros E.
  destruct (fingerprint_shape_error_escapes E Demo.song
              (Demo.start Unrecognised)
              (emit (Run (ffprobe_cmd Demo.song))
                 (emit (processing Demo.song) (Demo.start Unrecognised)))
              (JObj [("fingerprint", JStr "AQADtMmY"); ("duration", JNull)])
              TypeError) as (_ & _ & _ & Hproc).
  - reflexivity.
  - eexists. split; [reflexivity|]. split; reflexivity.
  - reflexivity.
  - rewrite Hproc. reflexivity.
Defined.

(** ** The duration sent to the lookup *)

(** X4: a fractional duration printed by the fingerprinter is cut towards
    zero: the integer [d] that [run_fpcalc] hands on is the whole part of
    [m * 2 ^ e], with the sign of [m]. *)
Theorem duration_is_truncated E fields m e :
  assoc "duration" fields = Some (JFloat (FFinite m e)) ->
  e < 0 ->
  exists d,
    duration_of E (JObj fields) = Ok d /\
    Z.abs d * 2 ^ (- e) <= Z.abs m < (Z.abs d + 1) * 2 ^ (- e) /\
    (0 <= m -> 0 <= d) /\
    (m <= 0 -> d <= 0).
Proof.
  intros Hd He. exists (Z.quot m (2 ^ (- e))).
  unfold duration_of, rbind. rewrite py_get_object, Hd. simpl.
  destruct (Z.leb_spec 0 e); [lia|]. split; [done|].
  assert (Hk : 0 < 2 ^ (- e)) by (apply Z.pow_pos_nonneg; lia).
  set (k := 2 ^ (- e)) in *.
  pose proof (Z.quot_rem' m k) as Hqr.
  destruct (Z.le_ge_cases 0 m) as [Hm|Hm].
  - pose proof (Z.rem_bound_pos m k Hm Hk).
    pose proof (Z.quot_pos m k Hm Hk).
    repeat split; nia.
  - pose proof (Z.rem_bound_pos_neg m k Hk Hm) as Hr.
    assert (Hq : Z.quot m k <= 0).
    { rewrite <- (Z.opp_involutive m), Z.quot_opp_l by lia.
      pose proof (Z.quot_pos (- m) k); lia. }
    rewrite (Z.abs_neq m), (Z.abs_neq (Z.quot m k)) by lia.
    repeat split; nia.
Qed.

Lemma duration_is_truncated_witness :
  exists d,
    duration_of Demo.quiet
      (JObj [("duration", JFloat (FFinite 3455 (-4)))]) = Ok d /\
    Z.abs d * 2 ^ 4 <= Z.abs 3455 < (Z.abs d + 1) * 2 ^ 4 /\
    (0 <= 3455 -> 0 <= d) /\
    (3455 <= 0 -> d <= 0).
Proof.
  apply (duration_is_truncated Demo.quiet
           [("duration", JFloat (FFinite 3455 (-4)))] 3455 (-4));
    [reflexivity|lia].
Defined.

(** ** The network steps *)

Lemma emit_state_after e st new :
  emit e (state_after st new) = state_after st (new ++ [e]).
Proof. unfold emit, state_after. simpl. by rewrite app_assoc. Qed.

Lemma emit_as_state_after e st : emit e st = state_after st [e].
Proof. reflexivity. Qed.

Lemma lookup_acoustid_shape E fingerprint duration st :
  exists v logs,
    lookup_acoustid E fingerprint duration st =
      (Ok v,
       state_after st (UrlOpen (lookup_url E fingerprint duration) :: logs)) /\
    (logs = [] \/ (v = JArr [] /\ exists t a, logs = [Log ERROR t a])).
Proof.
  unfold lookup_acoustid, urlopen_json, loads. unfold_m. simpl.
  rewrite emit_as_state_after.
  repeat case_match; simplify_eq; rewrite ?emit_state_after; simpl;
    do 2 eexists; (split; [reflexivity|]); eauto.
Qed.

Lemma lookup_acoustid_ok E fingerprint duration st data st1 :
  urlopen_json E (lookup_url E fingerprint duration) st = (Ok data, st1) ->
  status_ok data = true ->
  lookup_acoustid E fingerprint duration st = (Ok (results_of data), st1).
Proof.
  intros Hresp Hok. unfold lookup_acoustid. unfold_m. rewrite Hresp.
  destruct data as [| | | | | |fields]; try done.
  unfold status_ok in Hok. unfold results_of, field. rewrite !py_get_object.
  destruct (assoc "status" fields) as [s|]; [|done]. rewrite Hok.
  by destruct (assoc "results" fields).
Qed.

(** X6: a lookup answered with status ["ok"] hands back the [results]
    field as it is, the empty list when the field is missing; when that
    value is falsy [process_file] returns [False] after the line
    "No AcoustID results found" and asks for no cover art. *)
Theorem ok_without_results_fails E filepath st st1 fingerprint duration st2
    data st3 :
  has_cover_art E filepath (emit (processing filepath) st) = (Ok false, st1) ->
  run_fpcalc E filepath (emit analyzing st1) =
    (Ok (fingerprint, Some duration), st2) ->
  fingerprint_failed fingerprint (Some duration) = false ->
  urlopen_json E (lookup_url E fingerprint duration)
    (emit (fingerprinted duration) st2) = (Ok data, st3) ->
  status_ok data = true ->
  truthy (results_of data) = false ->
  lookup_acoustid E fingerprint duration (emit (fingerprinted duration) st2) =
    (Ok (results_of data), st3) /\
  process_file E filepath st = (Ok false, emit no_results st3).
Proof.
  intros Hcov Hfp Hfail Hresp Hok Hempty.
  pose proof (lookup_acoustid_ok _ _ _ _ _ _ Hresp Hok) as Hlookup.
  split; [done|].
  by apply (process_file_no_results _ _ _ _ _ _ _ _ _ Hcov Hfp Hfail Hlookup).
Qed.

Lemma ok_without_results_fails_witness :
  let E := Demo.world (Demo.exited 0 "probe") (Demo.exited 0 "fp")
             (fun _ => Demo.body "reply")
             [("probe", Demo.no_picture);
              ("fp", JObj [("fingerprint", JStr "AQADtMmY");
                           ("duration", JInt 215)]);
              ("reply", JObj [("status", JStr "ok")])] Demo.saves in
  process_file E Demo.song (Demo.start Unrecognised) =
    (Ok false,
     state_after (Demo.start Unrecognised)
       [processing Demo.song; Run (ffprobe_cmd Demo.song); analyzing;
        Run (fpcalc_cmd Demo.song); fingerprinted 215;
        UrlOpen (lookup_url E (JStr "AQADtMmY") 215); no_results]).
Proof.
  intros E.
  destruct (ok_without_results_fails E Demo.song (Demo.start Unrecognised)
              (state_after (Demo.start Unrecognised)
                 [processing Demo.song; Run (ffprobe_cmd Demo.song)])
              (JStr "AQADtMmY") 215
              (state_after (Demo.start Unrecognised)
                 [processing Demo.song; Run (ffprobe_cmd Demo.song);
                  analyzing; Run (fpcalc_cmd Demo.song)])
              (JObj [("status", JStr "ok")])
              (state_after (Demo.start Unrecognised)
                 [processing Demo.song; Run (ffprobe_cmd Demo.song);
                  analyzing; Run (fpcalc_cmd Demo.song); fingerprinted 215;
                  UrlOpen (lookup_url E (JStr "AQADtMmY") 215)]))
    as [_ Hproc]; [reflexivity..|].
  rewrite Hproc. reflexivity.
Defined.

Lemma get_cover_art_url_shape E release_id st :
  exists v logs,
    get_cover_art_url E release_id st =
      (Ok v, state_after st (UrlOpen (CoverArtRelease release_id) :: logs)) /\
    (logs = [] \/
     (v = JNull /\ exists l t a, logs = [Log l t a] /\ l <> INFO)).
Proof.
  unfold get_cover_art_url, urlopen_json, loads. unfold_m. unfold tell. simpl.
  rewrite emit_as_state_after.
  repeat case_match; simplify_eq; rewrite ?emit_state_after; simpl;
    do 2 eexists; (split; [reflexivity|]); eauto 10.
Qed.

(** X7: [get_cover_art_url] never raises.  It asks the art index exactly
    once, leaves the file store alone, and logs at most one line: a
    warning or an error, and then it returns [None]. *)
Theorem resolver_never_raises E release_id st :
  exists v logs,
    get_cover_art_url E release_id st =
      (Ok v, state_after st (UrlOpen (CoverArtRelease release_id) :: logs)) /\
    (logs = [] \/
     (v = JNull /\ exists l t a, logs = [Log l t a] /\ l <> INFO)).
Proof.
  unfold get_cover_art_url, urlopen_json, loads. unfold_m. unfold tell. simpl.
  rewrite emit_as_state_after.
  repeat case_match; simplify_eq; rewrite ?emit_state_after; simpl;
    do 2 eexists; (split; [reflexivity|]); eauto 10.
Qed.

(** X8: an entry of the images list that is not an object, met before any
    image flagged as front, ends the resolution: [get_cover_art_url] logs
    the [AttributeError] and returns [None], whatever images follow. *)
Theorem stray_image_entry_hides_front E release_id st data st1
    before bad after :
  urlopen_json E (CoverArtRelease release_id) st = (Ok data, st1) ->
  py_get data "images" (JArr []) = Ok (JArr (before ++ bad :: after)) ->
  forallb is_object before = true ->
  forallb (fun i => negb (flagged_front i)) before = true ->
  is_object bad = false ->
  get_cover_art_url E release_id st =
    (Ok JNull, emit (resolver_failed AttributeError) st1).
Proof.
  intros Hresp Hget Hobj Hnone Hbad.
  assert (Hloop : front_image (before ++ bad :: after) = Raise AttributeError).
  { clear Hget. induction before as [|b before IH]; simpl in *.
    - by destruct bad.
    - apply andb_true_iff in Hobj as [Hb Hobj].
      apply andb_true_iff in Hnone as [Hnb Hnone].
      destruct b as [| | | | | |fields]; try done.
      unfold flagged_front in Hnb. simpl in *. unfold rbind.
      destruct (assoc "front" fields) as [f|]; simpl.
      + apply negb_true_iff in Hnb. rewrite Hnb. by apply IH.
      + by apply IH. }
  unfold get_cover_art_url. unfold_m. rewrite Hresp.
  unfold select_image, rbind. rewrite Hget. cbn [py_iter]. by rewrite Hloop.
Qed.

Lemma stray_image_entry_hides_front_witness :
  let E := Demo.world (Demo.exited 0 "probe") (Demo.exited 0 "fp")
             (fun _ => Demo.body "art")
             [("art", Demo.art_with_stray_entry)] Demo.saves in
  get_cover_art_url E (JStr "r1") (Demo.start Unrecognised) =
    (Ok JNull,
     state_after (Demo.start Unrecognised)
       [UrlOpen (CoverArtRelease (JStr "r1"));
        resolver_failed AttributeError]).
Proof.
  intros E.
  rewrite (stray_image_entry_hides_front E (JStr "r1")
             (Demo.start Unrecognised) Demo.art_with_stray_entry
             (emit (UrlOpen (CoverArtRelease (JStr "r1")))
                (Demo.start Unrecognised))
             [] (JStr "https://art/back.jpg")
             [JObj [("front", JBool true);
                    ("image", JStr "https://art/front.jpg")]]);
    reflexivity.
Defined.

Lemma download_image_shape E url st :
  exists v new,
    download_image E url st = (Ok v, state_after st new) /\
    ((exists u body, url = JStr u /\ new = [UrlOpen (ImageUrl u)] /\
                     v = Some body) \/
     (exists u t a, url = JStr u /\
                    new = [UrlOpen (ImageUrl u); Log ERROR t a] /\ v = None) \/
     (exists t a, (forall u, url <> JStr u) /\
                  new = [Log ERROR t a] /\ v = None)).
Proof.
  unfold download_image. unfold_m. unfold tell.
  destruct url; simpl; rewrite ?emit_as_state_after;
    try (do 2 eexists; split; [reflexivity|]; right; right;
         do 2 eexists; by repeat split).
  destruct (urlopen_read E _ (ImageUrl s)) as [body|e];
    rewrite ?emit_state_after; simpl;
    do 2 eexists; (split; [reflexivity|]); [left|right; left]; eauto 10.
Qed.

(** X9: [download_image] never raises.  It makes one request for a string
    URL and none for anything else, leaves the file store alone, and either
    returns the bytes read without a log line or logs one error and returns
    [None]. *)
Theorem download_never_raises E url st :
  exists v new,
    download_image E url st = (Ok v, state_after st new) /\
    ((exists u body, url = JStr u /\ new = [UrlOpen (ImageUrl u)] /\
                     v = Some body) \/
     (exists u t a, url = JStr u /\
                    new = [UrlOpen (ImageUrl u); Log ERROR t a] /\ v = None) \/
     (exists t a, (forall u, url <> JStr u) /\
                  new = [Log ERROR t a] /\ v = None)).
Proof.
  unfold download_image. unfold_m. unfold tell.
  destruct url; simpl; rewrite ?emit_as_state_after;
    try (do 2 eexists; split; [reflexivity|]; right; right;
         do 2 eexists; by repeat split).
  destruct (urlopen_read E _ (ImageUrl s)) as [body|e];
    rewrite ?emit_state_after; simpl;
    do 2 eexists; (split; [reflexivity|]); [left|right; left]; eauto 10.
Qed.

Lemma download_image_not_string E url st :
  (forall u, url <> JStr u) ->
  download_image E url st = (Ok None, emit (download_failed AttributeError) st).
Proof.
  intros Hurl. unfold download_image. unfold_m.
  destruct url; try reflexivity. by destruct (Hurl s).
Qed.

(** X10: a release whose art index offers a truthy value that is not a
    string where the URL belongs (a number, say) is passed over: no
    download is requested and the tag library is not called. *)
Theorem non_string_url_is_skipped E filepath fields release_id st url st1 :
  assoc "id" fields = Some release_id ->
  truthy release_id = true ->
  get_cover_art_url E release_id (emit (trying fields release_id) st) =
    (Ok url, st1) ->
  truthy url = true ->
  (forall u, url <> JStr u) ->
  try_release E filepath (JObj fields) st =
    (Ok Next, emit (download_failed AttributeError) (emit (found_url url) st1)).
Proof.
  intros Hid Htruthy Hurl Hval Hnot.
  destruct (try_release_stages E filepath fields release_id st url st1
              Hid Htruthy Hurl) as [_ Hgo].
  destruct (Hgo Hval None (emit (download_failed AttributeError)
                             (emit (found_url url) st1))) as [Hskip _].
  - by apply download_image_not_string.
  - by apply Hskip.
Qed.

Lemma non_string_url_is_skipped_witness :
  let E := Demo.world (Demo.exited 0 "probe") (Demo.exited 0 "fp")
             (fun _ => Demo.body "art")
             [("art", Demo.art_without_url)] Demo.saves in
  try_release E Demo.song Demo.first_release (Demo.start (Audio Demo.mp3)) =
    (Ok Next,
     state_after (Demo.start (Audio Demo.mp3))
       [trying [("id", JStr "r1")] (JStr "r1");
        UrlOpen (CoverArtRelease (JStr "r1"));
        found_url (JInt 42);
        download_failed AttributeError]).
Proof.
  intros E. unfold Demo.first_release.
  rewrite (non_string_url_is_skipped E Demo.song [("id", JStr "r1")]
             (JStr "r1") (Demo.start (Audio Demo.mp3)) (JInt 42)
             (state_after (Demo.start (Audio Demo.mp3))
                [trying [("id", JStr "r1")] (JStr "r1");
                 UrlOpen (CoverArtRelease (JStr "r1"))]));
    try reflexivity.
  by intros u.
Defined.

(** ** What embedding keeps *)

Lemma ensure_id3_frames tags t :
  ensure_tags (fun t : gmap string frame => bool_decide (t = ∅)) ∅ tags = Ok t ->
  t = frames_of tags.
Proof.
  destruct tags as [t0|]; simpl; [|by intros [= <-]].
  destruct (bool_decide (t0 = ∅)); [done|]. by intros [= <-].
Qed.

Lemma set_cover_id3 tags image_data audio' :
  loaded (ID3FileType tags) ->
  set_cover (ID3FileType tags) image_data = Ok audio' ->
  id3_loaded (frames_of tags) /\
  audio' = ID3FileType
             (Some (<[HashKey (FrameAPIC (jpeg_apic image_data)) :=
                        FrameAPIC (jpeg_apic image_data)]>
                      (delall "APIC" (frames_of tags)))).
Proof.
  intros Hl Hset. simpl in Hset. unfold rbind in Hset.
  destruct (ensure_tags _ _ tags) as [t|e] eqn:Ht; [|done].
  injection Hset as <-.
  pose proof (ensure_id3_loaded _ _ Hl Ht) as Hlt.
  apply ensure_id3_frames in Ht as ->. split; [done|].
  by rewrite (add_fresh _ _ (delall_free_key _ _ Hlt)).
Qed.

(** The invariant of loaded tags survives the format dispatch. *)
Lemma set_cover_loaded audio image_data audio' :
  loaded audio ->
  set_cover audio image_data = Ok audio' ->
  loaded audio'.
Proof.
  intros Hl Hset. destruct audio as [[t|]|comments pictures|tags|tags].
  - by injection Hset as <-.
  - done.
  - by injection Hset as <-.
  - destruct (set_cover_id3 _ _ _ Hl Hset) as [Hlt ->]. simpl.
    apply map_Forall_insert_2; [by split|].
    intros k f Hk. apply delall_loaded in Hk as [Hk _]; [|done].
    by apply Hlt.
  - simpl in Hset. unfold rbind in Hset. by destruct (ensure_other_tags tags).
Qed.

(** X11: a successful embed changes pictures only.  The container stored
    afterwards has the other MPEG-4 atoms, the FLAC comments, or the ID3
    frames other than pictures exactly as the file had them. *)
Theorem embed_keeps_other_tags E filepath image_data st st1 audio :
  fs st !! filepath = Some (Audio audio) ->
  loaded audio ->
  embed_cover_art E filepath image_data st = (Ok true, st1) ->
  exists audio',
    fs st1 !! filepath = Some (Audio audio') /\
    same_but_pictures audio audio'.
Proof.
  intros Hfile Hl Hembed.
  rewrite embed_cover_art_unfold, Hfile in Hembed. cbv zeta in Hembed.
  destruct (set_cover audio image_data) as [audio'|e] eqn:Hset; [|done].
  destruct (mutagen_save E _ filepath audio'); [|done].
  injection Hembed as <-. exists audio'.
  split; [apply lookup_insert_eq|].
  destruct audio as [[t|]|comments pictures|tags|tags].
  - injection Hset as <-. intros k Hk. by apply lookup_insert_ne.
  - done.
  - by injection Hset as <-.
  - destruct (set_cover_id3 _ _ _ Hl Hset) as [Hlt ->].
    intros k k' body. rewrite lookup_insert.
    case_decide as Hkey.
    + split; [done|]. intros Hk. subst k.
      destruct (Hlt _ _ Hk) as [Heq Hid]. simpl in Heq, Hid. subst k'.
      change ("APIC:" +:+ "Cover") with ("APIC" +:+ ":Cover") in Hid.
      by rewrite prefix_append in Hid.
    + rewrite delall_loaded by done. split; [by intros [? _]|eauto].
  - simpl in Hset. unfold rbind in Hset. by destruct (ensure_other_tags tags).
Qed.

Lemma embed_keeps_other_tags_witness :
  exists audio',
    fs (snd (embed_cover_art Demo.full Demo.song Demo.jpeg
               (Demo.start (Audio Demo.mp3)))) !! Demo.song =
      Some (Audio audio') /\
    same_but_pictures Demo.mp3 audio'.
Proof.
  apply (embed_keeps_other_tags Demo.full Demo.song Demo.jpeg
           (Demo.start (Audio Demo.mp3))
           (snd (embed_cover_art Demo.full Demo.song Demo.jpeg
                   (Demo.start (Audio Demo.mp3))))
           Demo.mp3).
  - apply lookup_singleton_eq.
  - cbv [loaded Demo.mp3 id3_loaded].
    refine (bool_decide_unpack (map_Forall frame_loaded _) _).
    vm_compute. exact I.
  - reflexivity.
Defined.

(** X12: the format dispatch keeps the tags in the shape the library
    loads them in, and what it builds does not depend on the pictures that
    were there: dispatching on its own result gives what dispatching on the
    original container gives, so a second embed replaces the first. *)
Theorem second_embed_replaces_first audio first second audio1 :
  loaded audio ->
  set_cover audio first = Ok audio1 ->
  loaded audio1 /\
  set_cover audio1 second = set_cover audio second.
Proof.
  intros Hl Hset. split; [by eapply set_cover_loaded|].
  destruct audio as [[t|]|comments pictures|tags|tags].
  - injection Hset as <-. simpl. by rewrite insert_insert_eq.
  - done.
  - by injection Hset as <-.
  - destruct (set_cover_id3 _ _ _ Hl Hset) as [Hlt ->].
    pose proof (set_cover_loaded _ _ _ Hl Hset) as Hl1.
    set (t1 := <[HashKey (FrameAPIC (jpeg_apic first)) :=
                   FrameAPIC (jpeg_apic first)]>
                 (delall "APIC" (frames_of tags))).
    assert (Hsame : delall "APIC" t1 = delall "APIC" (frames_of tags)).
    { assert (Hlt1 : id3_loaded t1).
      { apply map_Forall_insert_2; [by split|].
        intros k f Hk. apply delall_loaded in Hk as [Hk _]; [|done].
        by apply Hlt. }
      apply map_eq. intros k. apply option_eq. intros f.
      rewrite !delall_loaded by done. unfold t1. rewrite lookup_insert.
      case_decide as Hkey.
      - split.
        + intros [[= <-] (k' & body & [=])].
        + intros [Hk (k' & body & ->)]. subst k.
          destruct (Hlt _ _ Hk) as [Heq Hid]. simpl in Heq, Hid. subst k'.
          change ("APIC:" +:+ "Cover") with ("APIC" +:+ ":Cover") in Hid.
          by rewrite prefix_append in Hid.
      - rewrite delall_loaded by done. tauto. }
    assert (Hrhs : set_cover (ID3FileType tags) second =
      Ok (ID3FileType (Some (add (jpeg_apic second)
                               (delall "APIC" (frames_of tags)))))).
    { simpl in Hset |- *. unfold rbind in *.
      destruct (ensure_tags _ _ tags) as [t|e] eqn:Ht; [|done].
      by apply ensure_id3_frames in Ht as ->. }
    rewrite Hrhs. simpl. unfold rbind.
    rewrite bool_decide_eq_false_2 by apply insert_non_empty.
    fold t1. by rewrite Hsame.
  - simpl in Hset. unfold rbind in Hset. by destruct (ensure_other_tags tags).
Qed.

Lemma second_embed_replaces_first_witness :
  exists audio1,
    set_cover Demo.mp3 Demo.old_art = Ok audio1 /\
    loaded audio1 /\
    set_cover audio1 Demo.jpeg = set_cover Demo.mp3 Demo.jpeg.
Proof.
  destruct (set_cover Demo.mp3 Demo.old_art) as [audio1|e] eqn:Hset;
    [|vm_compute in Hset; discriminate Hset].
  exists audio1. split; [reflexivity|].
  apply (second_embed_replaces_first Demo.mp3 Demo.old_art Demo.jpeg audio1);
    [|exact Hset].
  cbv [loaded Demo.mp3 id3_loaded].
  refine (bool_decide_unpack (map_Forall frame_loaded _) _).
  vm_compute. exact I.
Defined.

(** ** Embeds that end before saving *)

Lemma set_cover_refused audio image_data e :
  refused audio = Some e -> set_cover audio image_data = Raise e.
Proof.
  destruct audio as [[t|]|comments pictures|[t|]|[[[|c cs]|] [e0|]]];
    simpl; try done; try by intros [= <-].
  destruct (bool_decide (t = ∅)); [|done]. by intros [= <-].
Qed.

Lemma set_cover_accepted audio image_data :
  refused audio = None -> exists audio', set_cover audio image_data = Ok audio'.
Proof.
  destruct audio as [[t|]|comments pictures|[t|]|[[[|c cs]|] [e0|]]];
    simpl; try done; eauto.
  destruct (bool_decide (t = ∅)); [done|]. eauto.
Qed.

(** X13: on an MPEG-4 file without tags, on an ID3 file whose tag object
    is there but empty and on a container of any other kind,
    [embed_cover_art] returns [False] after logging the exception, without
    calling save: the file store is as it was.  The exception is the one
    the dispatch meets first: on a format that holds no tags, the error of
    its own [add_tags()].  On every other container the format dispatch
    goes through and save is called. *)
Theorem embed_refused_before_save E filepath image_data st audio :
  fs st !! filepath = Some (Audio audio) ->
  (forall e,
     refused audio = Some e ->
     embed_cover_art E filepath image_data st =
       (Ok false, state_after st [MutagenFile filepath; embed_failed e])) /\
  (refused audio = None ->
   exists rest,
     trace (snd (embed_cover_art E filepath image_data st)) =
       trace st ++ MutagenFile filepath :: Save filepath :: rest).
Proof.
  intros Hfile. rewrite embed_cover_art_unfold, Hfile. cbv zeta. split.
  - intros e Href. rewrite (set_cover_refused _ image_data _ Href).
    unfold state_after, embed_failed. f_equal. trace_eq.
  - intros Hacc.
    destruct (set_cover_accepted _ image_data Hacc) as [audio' ->].
    destruct (mutagen_save E _ filepath audio'); eexists; trace_eq.
Qed.

Lemma embed_refused_before_save_witness :
  embed_cover_art Demo.full Demo.song Demo.jpeg (Demo.start (Audio Demo.ogg)) =
    (Ok false,
     state_after (Demo.start (Audio Demo.ogg))
       [MutagenFile Demo.song; embed_failed AttributeError]) /\
  embed_cover_art Demo.full Demo.song Demo.jpeg (Demo.start (Audio Demo.aac)) =
    (Ok false,
     state_after (Demo.start (Audio Demo.aac))
       [MutagenFile Demo.song; embed_failed (OtherException "AACError")]) /\
  exists rest,
    trace (snd (embed_cover_art Demo.readonly Demo.song Demo.jpeg
                  (Demo.start (Audio Demo.mp3)))) =
      MutagenFile Demo.song :: Save Demo.song :: rest.
Proof.
  split; [|split].
  - apply (proj1 (embed_refused_before_save Demo.full Demo.song Demo.jpeg
                    (Demo.start (Audio Demo.ogg)) Demo.ogg
                    (lookup_singleton_eq _ _))).
    reflexivity.
  - apply (proj1 (embed_refused_before_save Demo.full Demo.song Demo.jpeg
                    (Demo.start (Audio Demo.aac)) Demo.aac
                    (lookup_singleton_eq _ _))).
    reflexivity.
  - apply (proj2 (embed_refused_before_save Demo.readonly Demo.song Demo.jpeg
                    (Demo.start (Audio Demo.mp3)) Demo.mp3
                    (lookup_singleton_eq _ _))).
    reflexivity.
Defined.

(** ** The one file a run writes *)

Lemma writes_only_keeps {A} filepath (m : M A) :
  keeps_fs m -> writes_only filepath m.
Proof. intros H st q _. by rewrite H. Qed.

Lemma writes_only_bind {A B} filepath (m : M A) (k : A -> M B) :
  writes_only filepath m -> (forall a, writes_only filepath (k a)) ->
  writes_only filepath (bind m k).
Proof.
  intros Hm Hk st q Hq. unfold bind. specialize (Hm st q Hq).
  destruct (m st) as [[a|e] st']; simpl in *; [|done].
  by rewrite Hk.
Qed.

Lemma writes_only_for_each {A} filepath (body : A -> M flow) items :
  (forall x, writes_only filepath (body x)) ->
  writes_only filepath (for_each body items).
Proof.
  intros Hbody. induction items as [|x rest IH]; [done|].
  cbn [for_each]. apply writes_only_bind; [done|].
  by intros [|v].
Qed.

Lemma writes_only_embed E filepath image_data :
  writes_only filepath (embed_cover_art E filepath image_data).
Proof.
  intros st q Hq. rewrite embed_cover_art_unfold. cbv zeta.
  destruct (fs st !! filepath) as [[e| |audio]|]; try done.
  destruct (set_cover audio image_data) as [audio'|e]; [|done].
  destruct (mutagen_save E _ filepath audio'); simpl;
    by rewrite lookup_insert_ne.
Qed.

Lemma writes_only_try_release E filepath release :
  writes_only filepath (try_release E filepath release).
Proof.
  unfold try_release.
  apply writes_only_bind; [apply writes_only_keeps; keeps|intros release_id].
  destruct (negb (truthy release_id)); [apply writes_only_keeps; keeps|].
  apply writes_only_bind; [apply writes_only_keeps; keeps|intros title].
  apply writes_only_bind; [apply writes_only_keeps; keeps|intros _].
  apply writes_only_bind;
    [apply writes_only_keeps, keeps_get_cover_art_url|intros cover_url].
  destruct (negb (truthy cover_url)); [apply writes_only_keeps; keeps|].
  apply writes_only_bind; [apply writes_only_keeps; keeps|intros _].
  apply writes_only_bind;
    [apply writes_only_keeps, keeps_download_image|intros image_data].
  destruct (negb (data_truthy image_data)); [apply writes_only_keeps; keeps|].
  apply writes_only_bind; [apply writes_only_keeps; keeps|intros _].
  apply writes_only_bind; [apply writes_only_embed|intros embedded].
  apply writes_only_keeps. keeps.
Qed.

Lemma writes_only_scan_results E filepath results :
  writes_only filepath (scan_results E filepath results).
Proof.
  unfold scan_results.
  apply writes_only_bind; [apply writes_only_keeps; keeps|intros items].
  apply writes_only_bind; [|intros r; apply writes_only_keeps; keeps].
  apply writes_only_for_each. intros result. unfold try_result.
  apply writes_only_bind; [apply writes_only_keeps; keeps|intros recordings].
  destruct (negb (truthy recordings)); [apply writes_only_keeps; keeps|].
  apply writes_only_bind; [apply writes_only_keeps; keeps|intros recs].
  apply writes_only_for_each. intros recording. unfold try_recording.
  apply writes_only_bind; [apply writes_only_keeps; keeps|intros releases].
  destruct (negb (truthy releases)); [apply writes_only_keeps; keeps|].
  apply writes_only_bind; [apply writes_only_keeps; keeps|intros rels].
  apply writes_only_for_each. intros release. apply writes_only_try_release.
Qed.

(** X14: whatever the outside world answers and however the run ends,
    [process_file] leaves every path other than the one it was given as it
    found it. *)
Theorem process_file_writes_one_path E filepath st q :
  q <> filepath ->
  fs (snd (process_file E filepath st)) !! q = fs st !! q.
Proof.
  revert st q. change (writes_only filepath (process_file E filepath)).
  unfold process_file.
  apply writes_only_bind; [apply writes_only_keeps; keeps|intros _].
  apply writes_only_bind;
    [apply writes_only_keeps, keeps_has_cover_art|intros covered].
  destruct covered; [apply writes_only_keeps; keeps|].
  apply writes_only_bind; [apply writes_only_keeps; keeps|intros _].
  apply writes_only_bind;
    [apply writes_only_keeps, keeps_run_fpcalc|intros [fingerprint duration]].
  destruct (fingerprint_failed fingerprint duration);
    [apply writes_only_keeps; keeps|].
  apply writes_only_bind; [apply writes_only_keeps; keeps|intros _].
  apply writes_only_bind;
    [apply writes_only_keeps, keeps_lookup_acoustid|intros results].
  destruct (negb (truthy results)); [apply writes_only_keeps; keeps|].
  apply writes_only_bind; [apply writes_only_keeps; keeps|intros n].
  apply writes_only_bind; [apply writes_only_keeps; keeps|intros _].
  apply writes_only_scan_results.
Qed.

Lemma process_file_writes_one_path_witness :
  fs (snd (process_file Demo.full Demo.song Demo.shelf)) !! "/music/other.flac"
    = Some (Audio Demo.flac).
Proof.
  rewrite (process_file_writes_one_path Demo.full Demo.song Demo.shelf
             "/music/other.flac"); [reflexivity|discriminate].
Defined.

(** ** No retries *)

Lemma calls_app k l1 l2 : calls k (l1 ++ l2) = (calls k l1 + calls k l2)%nat.
Proof. induction l1 as [|e l1 IH]; simpl; [done|]. rewrite IH. lia. Qed.

Lemma always_whole (P : list event -> Prop) l : always P l -> P l.
Proof. intros H. apply (H l []). by rewrite app_nil_r. Qed.

Lemma always_nil (P : list event -> Prop) : P [] -> always P [].
Proof.
  intros H before after Heq. symmetry in Heq.
  by apply app_eq_nil in Heq as [-> _].
Qed.

Lemma always_cons (P : list event -> Prop) e l :
  P [] -> always (fun l' => P (e :: l')) l -> always P (e :: l).
Proof.
  intros Hnil Hl [|e' before] after Heq; [done|].
  injection Heq as <- ->. by apply (Hl before after).
Qed.

Lemma always_app (P : list event -> Prop) l1 l2 :
  always P l1 -> always (fun l => P (l1 ++ l)) l2 -> always P (l1 ++ l2).
Proof.
  intros H1 H2 before after Heq.
  apply app_eq_inv in Heq as [(k & -> & ->)|(k & -> & ->)].
  - by apply (H1 before k).
  - by apply (H2 k after).
Qed.

Lemma always_impl (P Q : list event -> Prop) l :
  (forall b, P b -> Q b) -> always P l -> always Q l.
Proof. intros HPQ H before after Heq. eapply HPQ, H, Heq. Qed.

Lemma asks_nothing_prefix b a : asks_nothing (b ++ a) -> asks_nothing b.
Proof.
  unfold asks_nothing. rewrite !calls_app.
  intros (? & ? & ? & ? & ? & ?). repeat split; lia.
Qed.

Lemma always_asks_nothing (P : list event -> Prop) l :
  asks_nothing l -> (forall b, asks_nothing b -> P b) -> always P l.
Proof. intros Hl HP before after ->. by eapply HP, asks_nothing_prefix. Qed.

Lemma tidy_nil n : tidy n [].
Proof. unfold tidy, in_order. simpl. repeat split; lia. Qed.

Lemma tidy_app n1 n2 l1 l2 :
  tidy n1 l1 -> tidy n2 l2 -> tidy (n1 + n2) (l1 ++ l2).
Proof.
  unfold tidy, in_order. rewrite !calls_app.
  intros ((? & ? & ?) & ? & ? & ?) ((? & ? & ?) & ? & ? & ?).
  repeat split; lia.
Qed.

Lemma tidy_mono n m l : (n <= m)%nat -> tidy n l -> tidy m l.
Proof.
  unfold tidy, in_order. intros ? ((? & ? & ?) & ? & ? & ?).
  repeat split; lia.
Qed.

Lemma always_tidy_app n1 n2 l1 l2 :
  always (tidy n1) l1 -> always (tidy n2) l2 ->
  always (tidy (n1 + n2)) (l1 ++ l2).
Proof.
  intros H1 H2. apply always_app.
  - eapply always_impl; [|exact H1]. intros b. apply tidy_mono. lia.
  - eapply always_impl; [|exact H2]. intros b Hb.
    apply tidy_app; [by apply always_whole|done].
Qed.

Ltac trace_new :=
  unfold state_after, emit, write; cbn [trace fs];
  rewrite <- ?app_assoc; cbn [app]; reflexivity.

Ltac count_now :=
  cbv beta delta [orderly tidy in_order]; cbn;
  repeat (progress (rewrite ?calls_app; cbn)); repeat split; lia.

(** Every initial part of a trace written out, event by event. *)
Ltac always_now :=
  repeat first [apply always_nil | apply always_cons | apply always_app];
  first
    [ count_now
    | match goal with
      | H : asks_nothing ?l |- always _ ?l =>
          apply (always_asks_nothing _ _ H);
          intros ? (? & ? & ? & ? & ? & ?); count_now
      | H : always (tidy _) ?l |- always _ ?l =>
          apply (fun HPQ => always_impl _ _ _ HPQ H);
          intros ? ((? & ? & ?) & ? & ? & ?); count_now
      end ].

Ltac tidy_now := eexists; split; [trace_new|always_now].

Lemma try_release_tidy E filepath release :
  emits (always (tidy 1)) (try_release E filepath release).
Proof.
  intros st. unfold try_release. unfold_m. unfold tell.
  destruct (py_get release "id" JNull) as [release_id|e];
    [|exists []; split; [by rewrite app_nil_r|apply always_nil, tidy_nil]].
  destruct (negb (truthy release_id));
    [exists []; split; [by rewrite app_nil_r|apply always_nil, tidy_nil]|].
  destruct (py_get release "title" (JStr "Unknown")) as [title|e];
    [|exists []; split; [by rewrite app_nil_r|apply always_nil, tidy_nil]].
  cbn beta iota.
  match goal with
  | |- context [get_cover_art_url E release_id ?s] =>
      destruct (get_cover_art_url_shape E release_id s)
        as (url & logs1 & -> & Hlogs1)
  end.
  assert (Hl1 : asks_nothing logs1).
  { unfold asks_nothing. by destruct Hlogs1 as [->|(_ & l & t & a & -> & _)]. }
  clear Hlogs1. pose proof Hl1 as (? & ? & ? & ? & ? & ?).
  destruct (negb (truthy url)); [tidy_now|].
  match goal with
  | |- context [download_image E url ?s] =>
      destruct (download_image_shape E url s) as (image & new2 & -> & Hnew2)
  end.
  destruct Hnew2 as [(u & body & -> & -> & ->)
                    |[(u & t & a & -> & -> & ->)|(t & a & _ & -> & ->)]];
    cbn [negb data_truthy]; try tidy_now.
  destruct body as [|b body]; cbn [negb data_truthy]; [tidy_now|].
  rewrite embed_cover_art_unfold. cbv zeta.
  match goal with
  | |- context [fs ?s !! filepath] =>
      destruct (fs s !! filepath) as [[e| |audio]|]
  end; try tidy_now.
  destruct (set_cover audio (b :: body)) as [audio'|e]; [|tidy_now].
  destruct (mutagen_save E _ filepath audio'); tidy_now.
Qed.

Lemma for_each_tidy {A} (body : A -> M flow) items :
  (forall x, emits (always (tidy 1)) (body x)) ->
  emits (always (tidy (length items))) (for_each body items).
Proof.
  intros Hbody. induction items as [|x rest IH].
  - intros st. exists []. split; [by rewrite app_nil_r|].
    apply always_nil, tidy_nil.
  - intros st. cbn [for_each length]. unfold bind.
    destruct (Hbody x st) as (l1 & H1 & Ht1).
    destruct (body x st) as [[[|v]|e] st']; simpl in *.
    + destruct (IH st') as (l2 & H2 & Ht2).
      exists (l1 ++ l2). split; [by rewrite H2, H1, app_assoc|].
      by apply (always_tidy_app 1).
    + exists l1. split; [done|]. eapply always_impl; [|exact Ht1].
      intros b. apply tidy_mono. lia.
    + exists l1. split; [done|]. eapply always_impl; [|exact Ht1].
      intros b. apply tidy_mono. lia.
Qed.

Lemma run_seq_trace body s st :
  trace (snd (run_seq body s st)) = trace (snd (for_each body (fst s) st)).
Proof.
  unfold run_seq, bind.
  destruct (for_each body (fst s) st) as [[[|v]|e] st']; try done.
  by destruct (snd s).
Qed.

Lemma scan_items_tidy E filepath items st :
  exists new,
    trace (snd ((r <- for_each (try_result E filepath) items ;;
                 match r with
                 | Return v => ret v
                 | Next =>
                     logger WARNING "No cover art could be found or embedded" [] ;;;
                     ret false
                 end) st)) = trace st ++ new /\
    always (tidy (length (fst (candidates items)))) new.
Proof.
  unfold bind.
  destruct (for_each_tidy (try_release E filepath) (fst (candidates items))
              (fun x => try_release_tidy E filepath x) st)
    as (new & Hnew & Htidy).
  rewrite <- run_seq_trace, <- for_each_result_seq in Hnew.
  destruct (for_each (try_result E filepath) items st) as [[[|v]|e] st'];
    simpl in *.
  - exists (new ++ [nothing_found]). split.
    + unfold logger, tell, ret. simpl. by rewrite Hnew, app_assoc.
    + rewrite <- (Nat.add_0_r (length _)). apply always_tidy_app; [done|].
      unfold nothing_found. always_now.
  - by exists new.
  - by exists new.
Qed.

(** X15: the scan never asks twice.  Over the flattened sequence of
    candidate releases it makes at most one art request per release and
    neither a lookup nor a subprocess call; and in all it makes no more
    downloads than art requests, opens the file no more often than it
    downloads, and saves no more often than it opens. *)
Theorem scan_never_retries E filepath results st :
  exists new,
    trace (snd (scan_results E filepath (JArr results) st)) = trace st ++ new /\
    tidy (length (fst (candidates results))) new.
Proof.
  unfold scan_results. unfold bind at 1. unfold lift at 1. cbn [py_iter].
  destruct (scan_items_tidy E filepath results st) as (new & Hnew & Halways).
  exists new. split; [exact Hnew|]. by apply always_whole.
Qed.

Lemma scan_results_tidy E filepath results :
  emits (fun l => exists n, always (tidy n) l)
    (scan_results E filepath results).
Proof.
  intros st. unfold scan_results. unfold bind at 1. unfold lift at 1.
  destruct (py_iter results) as [items|e].
  - destruct (scan_items_tidy E filepath items st) as (new & ? & ?). eauto.
  - exists []. split; [by rewrite app_nil_r|]. exists O.
    apply always_nil, tidy_nil.
Qed.

Lemma calls_error_logs k logs :
  (forall e, is_error_log e = true -> k e = false) ->
  Forall (fun e => is_error_log e = true) logs ->
  calls k logs = O.
Proof.
  intros Hk. induction 1 as [|e logs He _ IH]; [done|].
  simpl. by rewrite (Hk e He), IH.
Qed.

Lemma error_log_is_no_call e :
  is_error_log e = true ->
  is_run e = false /\ is_lookup e = false /\ is_cover_request e = false /\
  is_download e = false /\ is_open e = false /\ is_save e = false.
Proof. by destruct e as [[]| | | |]. Qed.

Lemma run_fpcalc_shape E filepath st :
  exists r logs,
    run_fpcalc E filepath st =
      (r, state_after st (Run (fpcalc_cmd filepath) :: logs)) /\
    Forall (fun e => is_error_log e = true) logs.
Proof.
  unfold run_fpcalc, run, loads. unfold_m. unfold tell. simpl.
  rewrite emit_as_state_after.
  repeat case_match; simplify_eq; rewrite ?emit_state_after; simpl;
    do 2 eexists; (split; [reflexivity|]); by repeat constructor.
Qed.

Lemma error_logs_no_calls logs :
  Forall (fun e => is_error_log e = true) logs -> asks_nothing logs.
Proof.
  intros H. repeat split; apply calls_error_logs; try done;
    intros e He; by apply error_log_is_no_call in He as (? & ? & ? & ? & ? & ?).
Qed.

Ltac orderly_now := eexists; split; [trace_new|always_now].

(** X16: at every moment of a run of [process_file], however the run
    ends, it has called a subprocess at most twice and the lookup service
    at most once; the lookup comes only after both subprocess calls and an
    art request only after the lookup; and no download comes before its art
    request, no opening of the file before its download, no save before its
    opening. *)
Theorem process_file_is_orderly E filepath st :
  exists new,
    trace (snd (process_file E filepath st)) = trace st ++ new /\
    always orderly new.
Proof.
  unfold process_file. unfold bind at 1. unfold logger at 1, tell at 1.
  cbn beta iota. unfold bind at 1.
  destruct (has_cover_art_total E filepath
              (emit (Log INFO "Processing {filepath}..." [AStr filepath]) st))
    as (covered & logs0 & -> & _ & Hlogs0).
  apply error_logs_no_calls in Hlogs0.
  pose proof Hlogs0 as (? & ? & ? & ? & ? & ?).
  destruct covered; [unfold_m; unfold tell; orderly_now|].
  unfold bind at 1. unfold logger at 1, tell at 1. cbn beta iota.
  unfold bind at 1.
  match goal with
  | |- context [run_fpcalc E filepath ?s] =>
      destruct (run_fpcalc_shape E filepath s) as (r & logs1 & -> & Hlogs1)
  end.
  apply error_logs_no_calls in Hlogs1.
  pose proof Hlogs1 as (? & ? & ? & ? & ? & ?).
  destruct r as [[fingerprint duration]|e]; [|orderly_now].
  destruct (fingerprint_failed fingerprint duration);
    [unfold_m; unfold tell; orderly_now|].
  unfold bind at 1. unfold logger at 1, tell at 1. cbn beta iota zeta.
  unfold bind at 1.
  match goal with
  | |- context [lookup_acoustid E ?f ?d ?s] =>
      destruct (lookup_acoustid_shape E f d s) as (results & logs2 & -> & Hlogs2)
  end.
  assert (Hl2 : asks_nothing logs2).
  { unfold asks_nothing. by destruct Hlogs2 as [->|(_ & t & a & ->)]. }
  clear Hlogs2. pose proof Hl2 as (? & ? & ? & ? & ? & ?).
  destruct (negb (truthy results)); [unfold_m; unfold tell; orderly_now|].
  unfold bind at 1. unfold lift at 1.
  destruct (py_len results) as [n|e]; [|orderly_now].
  unfold bind at 1. unfold logger at 1, tell at 1. cbn beta iota.
  match goal with
  | |- context [scan_results E filepath results ?s] =>
      destruct (scan_results_tidy E filepath results s)
        as (new3 & Hnew3 & k & Hscan);
      destruct (scan_results E filepath results s) as [r3 st3]
  end.
  cbn [snd] in *. eexists. split.
  - rewrite Hnew3. trace_new.
  - always_now.
Qed.

(** ** Candidates of the wrong shape *)

(** X17: a candidate of the wrong shape (a result or recording that is not
    an object, a list that cannot be iterated) is only noticed when the
    scan reaches it: once every release before it has been passed over, its
    exception leaves the scan unhandled and the closing warning line is not
    logged. *)
Theorem malformed_candidate_raises E filepath results st releases e st1 :
  candidates results = (releases, Some e) ->
  for_each (try_release E filepath) releases st = (Ok Next, st1) ->
  scan_results E filepath (JArr results) st = (Raise e, st1).
Proof.
  intros Hflat Hall. unfold scan_results. unfold bind, lift. cbn [py_iter].
  rewrite for_each_result_seq, Hflat. unfold run_seq. cbn [fst snd].
  unfold bind. by rewrite Hall.
Qed.

Lemma malformed_candidate_raises_witness :
  scan_results Demo.readonly Demo.song (JArr Demo.results_with_junk)
    (Demo.start (Audio Demo.mp3)) =
  (Raise AttributeError,
   snd (for_each (try_release Demo.readonly Demo.song) [Demo.first_release]
          (Demo.start (Audio Demo.mp3)))).
Proof.
  apply (malformed_candidate_raises Demo.readonly Demo.song
           Demo.results_with_junk (Demo.start (Audio Demo.mp3))
           [Demo.first_release] AttributeError); reflexivity.
Defined.

(** ** From lookup to picture *)

Lemma from_fingerprint_results E filepath st fingerprint duration st2
    data st3 n :
  run_fpcalc E filepath st = (Ok (fingerprint, Some duration), st2) ->
  fingerprint_failed fingerprint (Some duration) = false ->
  urlopen_json E (lookup_url E fingerprint duration)
    (emit (fingerprinted duration) st2) = (Ok data, st3) ->
  status_ok data = true ->
  truthy (results_of data) = true ->
  py_len (results_of data) = Ok n ->
  from_fingerprint E filepath st =
    scan_results E filepath (results_of data) (emit (found_results n) st3).
Proof.
  intros Hfp Hfail Hresp Hok Htruthy Hlen. unfold from_fingerprint.
  unfold bind at 1. rewrite Hfp. cbn beta iota. rewrite Hfail.
  unfold bind at 1. unfold logger at 1, tell at 1. cbn beta iota.
  unfold bind at 1. fold (fingerprinted duration).
  rewrite (lookup_acoustid_ok _ _ _ _ _ _ Hresp Hok), Htruthy. cbn [negb].
  unfold bind at 1. unfold lift at 1. rewrite Hlen.
  unfold bind at 1. unfold logger at 1, tell at 1. reflexivity.
Qed.

(** X18: the pipeline end to end.  When the file has no cover, the
    fingerprint is usable, the lookup answers with status ["ok"], and for
    the first candidate release the art URL resolves, the download yields
    bytes and the embed succeeds, [process_file] returns [True] without
    trying any later candidate, and the file then holds exactly one picture
    whose bytes are the bytes downloaded. *)
Theorem first_candidate_end_to_end E filepath st st1 fingerprint duration
    st2 data st3 results fields after tail release_id u st4 b image st5
    audio st6 :
  has_cover_art E filepath (emit (processing filepath) st) = (Ok false, st1) ->
  run_fpcalc E filepath (emit analyzing st1) =
    (Ok (fingerprint, Some duration), st2) ->
  fingerprint_failed fingerprint (Some duration) = false ->
  urlopen_json E (lookup_url E fingerprint duration)
    (emit (fingerprinted duration) st2) = (Ok data, st3) ->
  status_ok data = true ->
  results_of data = JArr results ->
  candidates results = (JObj fields :: after, tail) ->
  assoc "id" fields = Some release_id ->
  truthy release_id = true ->
  get_cover_art_url E release_id
    (emit (trying fields release_id)
       (emit (found_results (Z.of_nat (length results))) st3)) =
    (Ok (JStr u), st4) ->
  u <> "" ->
  download_image E (JStr u) (emit (found_url (JStr u)) st4) =
    (Ok (Some (b :: image)), st5) ->
  fs st5 !! filepath = Some (Audio audio) ->
  loaded audio ->
  embed_cover_art E filepath (b :: image) (emit (downloaded (b :: image)) st5) =
    (Ok true, st6) ->
  process_file E filepath st = (Ok true, emit added st6) /\
  exists audio' picture,
    fs (emit added st6) !! filepath = Some (Audio audio') /\
    pictures_of audio' = [picture] /\
    picture_bytes picture = b :: image.
Proof.
  intros Hcov Hfp Hfail Hresp Hok Hres Hflat Hid Htruthy Hurl Hu Hdl
    Hfile Hl Hembed.
  assert (Hnonempty : results <> []).
  { intros ->. by cbn in Hflat. }
  assert (Hrelease :
    try_release E filepath (JObj fields)
      (emit (found_results (Z.of_nat (length results))) st3) =
    (Ok (Return true), emit added st6)).
  { destruct (try_release_stages E filepath fields release_id _ (JStr u) st4
                Hid Htruthy Hurl) as [_ Hgo].
    assert (Hstr : truthy (JStr u) = true).
    { simpl. apply negb_true_iff, String.eqb_neq, Hu. }
    destruct (Hgo Hstr _ _ Hdl) as [_ Hemb].
    by rewrite (Hemb (b :: image) eq_refl eq_refl true st6 Hembed). }
  split.
  - rewrite (process_file_after_probe _ _ _ _ Hcov).
    change (after_probe E filepath st1)
      with (from_fingerprint E filepath (emit analyzing st1)).
    rewrite (from_fingerprint_results _ _ _ _ _ _ _ _
               (Z.of_nat (length results)) Hfp Hfail Hresp Hok);
      rewrite ?Hres; [|by destruct results|done].
    unfold scan_results. unfold bind, lift. cbn [py_iter].
    rewrite for_each_result_seq, Hflat. unfold run_seq. cbn [fst snd for_each].
    unfold bind. by rewrite Hrelease.
  - rewrite embed_cover_art_unfold in Hembed. cbv zeta in Hembed.
    cbn [emit fs] in Hembed. rewrite Hfile in Hembed.
    destruct (set_cover audio (b :: image)) as [audio'|e] eqn:Hset; [|done].
    destruct (mutagen_save E _ filepath audio'); [|done].
    injection Hembed as <-.
    pose proof (set_cover_pictures _ _ _ Hl Hset) as Hpics.
    exists audio'. destruct audio; [| | |done]; eexists;
      (split; [apply lookup_insert_eq|]); (split; [exact Hpics|]);
      reflexivity.
Qed.

Lemma first_candidate_end_to_end_witness :
  let st := Demo.start (Audio Demo.mp3) in
  fst (process_file Demo.lucky Demo.song st) = Ok true /\
  exists audio' picture,
    fs (snd (process_file Demo.lucky Demo.song st)) !! Demo.song =
      Some (Audio audio') /\
    pictures_of audio' = [picture] /\
    picture_bytes picture = Demo.jpeg.
Proof.
  intros st.
  set (E := Demo.lucky).
  set (st1 := snd (has_cover_art E Demo.song (emit (processing Demo.song) st))).
  set (st2 := snd (run_fpcalc E Demo.song (emit analyzing st1))).
  set (st3 := snd (urlopen_json E (lookup_url E (JStr "AQADtMmY") 215)
                     (emit (fingerprinted 215) st2))).
  set (st4 := snd (get_cover_art_url E (JStr "r1")
                     (emit (trying [("id", JStr "r1")] (JStr "r1"))
                        (emit (found_results 1) st3)))).
  set (st5 := snd (download_image E (JStr "https://art/front.jpg")
                     (emit (found_url (JStr "https://art/front.jpg")) st4))).
  set (st6 := snd (embed_cover_art E Demo.song Demo.jpeg
                     (emit (downloaded Demo.jpeg) st5))).
  destruct (first_candidate_end_to_end E Demo.song st st1 (JStr "AQADtMmY")
              215 st2 Demo.matches st3 Demo.results [("id", JStr "r1")]
              [Demo.second_release] None (JStr "r1") "https://art/front.jpg"
              st4 (hd Byte.x00 Demo.jpeg) (tl Demo.jpeg) st5 Demo.mp3 st6)
    as [Hrun Hpic]; try reflexivity.
  - discriminate.
  - cbv [loaded Demo.mp3 id3_loaded].
    refine (bool_decide_unpack (map_Forall frame_loaded _) _).
    vm_compute. exact I.
  - rewrite Hrun. split; [reflexivity|exact Hpic].
Defined.

(** ** The entry point *)

(** X19: the script stops with status 1 before parsing its arguments when
    the API key is unset or empty, and with status 1 before probing
    anything when the file does not exist; and when it ends with status 0,
    either the argument parser ended it (after printing help) or
    [process_file] ran on the absolute path and returned [True]. *)
Theorem script_exit_status H E argv st :
  (getenv H = None \/ getenv H = Some "" ->
   script H E argv st = (1, emit key_missing st)) /\
  (forall key file,
     getenv H = Some key -> key <> "" ->
     parse_args H argv = inr file ->
     path_exists H st file = false ->
     script H E argv st = (1, emit (file_not_found file) st)) /\
  (fst (script H E argv st) = 0 ->
   parse_args H argv = inl 0 \/
   exists key file,
     getenv H = Some key /\ key <> "" /\
     parse_args H argv = inr file /\
     path_exists H st file = true /\
     fst (process_file (with_key key E) (abspath H file) st) = Ok true).
Proof.
  unfold script. split; [|split].
  - by intros [-> | ->].
  - intros key file -> Hkey -> ->.
    by rewrite (proj2 (String.eqb_neq key "") Hkey).
  - destruct (getenv H) as [key|]; [|done].
    destruct (String.eqb_spec key ""); [done|].
    destruct (parse_args H argv) as [code|file];
      [cbn [fst]; intros ->; by left|].
    destruct (path_exists H st file) eqn:Hexists; [|done]. cbn [negb].
    destruct (process_file _ _ st) as [[[|]|e] st'] eqn:Hrun; try done.
    intros _. right. exists key, file. by rewrite Hrun.
Qed.

Lemma script_exit_status_witness :
  script (Demo.host None true) Demo.lucky ["--help"]
    (Demo.start (Audio Demo.mp3)) =
    (1, emit key_missing (Demo.start (Audio Demo.mp3))) /\
  script (Demo.host (Some "key") false) Demo.lucky [Demo.song]
    (Demo.start (Audio Demo.mp3)) =
    (1, emit (file_not_found Demo.song) (Demo.start (Audio Demo.mp3))) /\
  fst (process_file (with_key "key" Demo.lucky) Demo.song
         (Demo.start (Audio Demo.mp3))) = Ok true.
Proof.
  split; [|split].
  - apply (proj1 (script_exit_status (Demo.host None true) Demo.lucky
                    ["--help"] (Demo.start (Audio Demo.mp3)))).
    by left.
  - apply (proj1 (proj2 (script_exit_status (Demo.host (Some "key") false)
                           Demo.lucky [Demo.song]
                           (Demo.start (Audio Demo.mp3)))) "key" Demo.song);
      [reflexivity|discriminate|reflexivity|reflexivity].
  - destruct (proj2 (proj2 (script_exit_status (Demo.host (Some "key") true)
                              Demo.lucky [Demo.song]
                              (Demo.start (Audio Demo.mp3)))))
      as [Hhelp|(key & file & [= <-] & _ & [= <-] & _ & Hrun)].
    + reflexivity.
    + discriminate Hhelp.
    + exact Hrun.
Defined.

(** ** Where a [True] comes from *)

Lemma bind_ok {A B} (m : M A) (k : A -> M B) st b st' :
  bind m k st = (Ok b, st') ->
  exists a s, m st = (Ok a, s) /\ k a s = (Ok b, st').
Proof.
  unfold bind. destruct (m st) as [[a|e] s]; [eauto|discriminate].
Qed.

Lemma for_each_return {A} (body : A -> M flow) items st v st' :
  for_each body items st = (Ok (Return v), st') ->
  exists x s, body x s = (Ok (Return v), st').
Proof.
  revert st. induction items as [|x rest IH]; intros st; [discriminate|].
  cbn [for_each]. intros (r & s & Hx & Hrest)%bind_ok.
  destruct r as [|w]; [by apply IH in Hrest|].
  injection Hrest as -> ->. eauto.
Qed.

Lemma try_release_return E filepath release st v st' :
  try_release E filepath release st = (Ok (Return v), st') ->
  v = true /\ just_embedded E filepath st'.
Proof.
  unfold try_release.
  intros (release_id & s0 & _ & H)%bind_ok.
  destruct (truthy release_id) eqn:Hid; [|discriminate]. cbn [negb] in H.
  apply bind_ok in H as (title & s1 & _ & H).
  apply bind_ok in H as (? & s2 & _ & H).
  apply bind_ok in H as (cover_url & s3 & Hurl & H).
  destruct (negb (truthy cover_url)); [discriminate|].
  apply bind_ok in H as (? & s4 & [= _ <-] & H).
  apply bind_ok in H as (image_data & s5 & Hget & H).
  destruct image_data as [[|b image]|]; try discriminate. cbn [negb] in H.
  cbv zeta in H. apply bind_ok in H as (? & s6 & [= _ <-] & H).
  apply bind_ok in H as (embedded & s7 & Hembed & H).
  destruct embedded; [|discriminate].
  injection H as <- <-. split; [done|].
  pose proof Hembed as Hfile.
  rewrite embed_cover_art_unfold in Hfile. cbv zeta in Hfile.
  cbn [fs emit] in Hfile.
  destruct (fs s5 !! filepath) as [[e| |audio]|] eqn:Hold; try discriminate.
  destruct (set_cover audio (b :: image)) as [audio'|e] eqn:Hset;
    [|discriminate].
  destruct (mutagen_save E _ filepath audio'); [|discriminate].
  injection Hfile as Hs7.
  exists release_id, cover_url, (b :: image), s2, s3, s5, s7, audio, audio'.
  repeat split; try done.
  rewrite <- Hs7. apply lookup_insert_eq.
Qed.

(** X20: [process_file] returns [True] in two ways only: the cover check
    answered [True], or the run ends right after a successful embed, into
    the file it was given, of the bytes it has just downloaded: a release
    id resolved to a URL, the download of that URL gave non-empty bytes,
    the embed of these very bytes went through, and the file holds what the
    format dispatch built from them. *)
Theorem success_has_a_reason E filepath st st' :
  process_file E filepath st = (Ok true, st') ->
  fst (has_cover_art E filepath (emit (processing filepath) st)) = Ok true \/
  just_embedded E filepath st'.
Proof.
  unfold process_file.
  intros (? & s0 & Hlog & H)%bind_ok. injection Hlog as _ <-.
  apply bind_ok in H as (covered & s1 & Hcov & H).
  destruct covered; [left; unfold processing; by rewrite Hcov|right].
  apply bind_ok in H as (? & s2 & _ & H).
  apply bind_ok in H as ([fingerprint duration] & s3 & _ & H).
  destruct (fingerprint_failed fingerprint duration).
  { by apply bind_ok in H as (? & ? & _ & [=]). }
  apply bind_ok in H as (? & s4 & _ & H).
  apply bind_ok in H as (results & s5 & _ & H).
  destruct (negb (truthy results)).
  { by apply bind_ok in H as (? & ? & _ & [=]). }
  apply bind_ok in H as (n & s6 & _ & H).
  apply bind_ok in H as (? & s7 & _ & H).
  unfold scan_results in H.
  apply bind_ok in H as (items & s8 & _ & H).
  apply bind_ok in H as (r & s9 & Hscan & H).
  destruct r as [|v]; [by apply bind_ok in H as (? & ? & _ & [=])|].
  injection H as -> ->.
  apply for_each_return in Hscan as (result & sa & Hresult).
  unfold try_result in Hresult.
  apply bind_ok in Hresult as (recordings & sb & _ & Hresult).
  destruct (negb (truthy recordings)); [discriminate|].
  apply bind_ok in Hresult as (recs & sc & _ & Hresult).
  apply for_each_return in Hresult as (recording & sd & Hrecording).
  unfold try_recording in Hrecording.
  apply bind_ok in Hrecording as (releases & se & _ & Hrecording).
  destruct (negb (truthy releases)); [discriminate|].
  apply bind_ok in Hrecording as (rels & sf & _ & Hrecording).
  apply for_each_return in Hrecording as (release & sg & Hrelease).
  by apply try_release_return in Hrelease as [_ ?].
Qed.

Lemma success_has_a_reason_witness :
  just_embedded Demo.lucky Demo.song
    (snd (process_file Demo.lucky Demo.song (Demo.start (Audio Demo.mp3)))).
Proof.
  destruct (success_has_a_reason Demo.lucky Demo.song
              (Demo.start (Audio Demo.mp3))
              (snd (process_file Demo.lucky Demo.song
                      (Demo.start (Audio Demo.mp3)))))
    as [Hcov|Hembed].
  - reflexivity.
  - discriminate Hcov.
  - exact Hembed.
Defined.



